(** * MariaDB connection management (src/connection.ts)

    A shallow embedding of [connection.ts]: the BIGINT normalisation of
    result rows, the resolution of the configuration from the process
    environment, and the pool / lease life cycle of [createConnectionPool],
    [executeQuery] and [endConnection].

    Conventions.
    - JavaScript values are a closed tree type [value]; a JS number is an
      IEEE-754 binary64 value, here [spec_float] of the standard library.
    - [process.env] is a finite map from names to strings.
    - A thrown exception is the left injection of a sum; every exception the
      module itself throws is [new Error(message)].
    - The two module-level variables [pool] and [connection] and the state of
      the driver form one explicit [Machine] threaded through every call.
    - The [console.error] log lines have no effect on the module state or on
      the driver and are left out, except for the one template literal whose
      evaluation can throw. *)

From Stdlib Require Import ZArith NArith Ascii String List DecimalString SpecFloat.
From stdpp Require Import base option list gmap strings.

Set Warnings "-register-all".

Local Open Scope Z_scope.
Local Open Scope string_scope.

(** ** JavaScript values *)

(** A JS [number]: IEEE-754 binary64. *)
Definition number : Type := spec_float.

(** [Number(v)] for a bigint [v]: the nearest binary64 value, ties to even. *)
Definition Number (v : Z) : number := binary_normalize 53 1024 v 0 false.

Inductive value : Type :=
| VUndefined
| VNull
| VBool (b : bool)
| VNumber (n : number)
| VString (s : string)
| VBigInt (v : Z)
| VDate (ms : number)
| VBuffer (bytes : list Z)
| VArray (elems : list value)
| VObject (fields : list (string * value)).

(** A thrown [Error]; [message] is its [message] property. *)
Record exn : Type := Error { message : string }.

(** Result of a computation that may throw. *)
Definition result (A : Type) : Type := exn + A.

Definition throw {A} (e : exn) : result A := inl e.
Definition ok {A} (a : A) : result A := inr a.

Definition rbind {A B} (r : result A) (k : A → result B) : result B :=
  match r with
  | inl e => inl e
  | inr a => k a
  end.

Notation "'let!' x ':=' r 'in' k" := (rbind r (fun x => k))
  (at level 10, x pattern, r at level 200, k at level 200).

(** [process.env]: absent keys read as [undefined]. *)
Abbreviation Env := (gmap string string).

(** [process.env[k] === "true"] *)
Definition env_is_true (env : Env) (k : string) : bool :=
  bool_decide (env !! k = Some "true").

(** ** Normalisation of result rows *)

(** [BigInt(Number.MAX_SAFE_INTEGER)], that is 2^53 - 1. *)
Definition MAX_SAFE : Z := 9007199254740991.

(** [v.toString()] for a bigint: decimal digits with a leading minus sign
    for negative values. *)
Definition bigint_toString (v : Z) : string :=
  NilZero.string_of_int (Z.to_int v).

Definition convertScalar (env : Env) (v : value) : result value :=
  match v with
  | VBigInt z =>
      if env_is_true env "MARIADB_CHECK_NUMBER_RANGE" then
        if ((z >? MAX_SAFE) || (z <? - MAX_SAFE))%Z then
          throw (Error ("BIGINT out of safe JS range: " +:+ bigint_toString z))
        else ok (VNumber (Number z))
      else ok (VNumber (Number z))
  | _ => ok v
  end.

(** [for (const k of Object.keys(row)) row[k] = convertScalar(row[k])]:
    the fields are visited in key order and the first exception aborts the
    loop. *)
Fixpoint convertFields (env : Env) (fields : list (string * value))
  : result (list (string * value)) :=
  match fields with
  | [] => ok []
  | (k, v) :: rest =>
      let! v' := convertScalar env v in
      let! rest' := convertFields env rest in
      ok ((k, v') :: rest')
  end.

(** [normalizeRow].  An array is mapped element by element; any other
    non-null object (a record, and also a [Date] or a [Buffer], whose
    enumerable own properties are none, respectively numbers) has each own
    field passed through [convertScalar]; everything else is returned as
    it is.  The record is updated in place in the source; the updated
    record is what is returned, which is what the embedding returns. *)
Fixpoint normalizeRow (env : Env) (row : value) : result value :=
  match row with
  | VArray elems =>
      let! elems' :=
        (fix map_rows (l : list value) : result (list value) :=
           match l with
           | [] => ok []
           | x :: xs =>
               let! x' := normalizeRow env x in
               let! xs' := map_rows xs in
               ok (x' :: xs')
           end) elems in
      ok (VArray elems')
  | VObject fields =>
      let! fields' := convertFields env fields in
      ok (VObject fields')
  | other => ok other
  end.

(** The local loop of [normalizeRow], named so that it can be reasoned
    about. *)
Fixpoint normalizeRows (env : Env) (l : list value) : result (list value) :=
  match l with
  | [] => ok []
  | x :: xs =>
      let! x' := normalizeRow env x in
      let! xs' := normalizeRows env xs in
      ok (x' :: xs')
  end.

(** ** Configuration read from the environment *)

(** [MariaDBConfig] of [types.ts], as the object literal returned by
    [getConfigFromEnv] shows it. *)
Module MariaDBConfig.
Record t : Type := Build {
  host : string;
  port : number;
  user : string;
  password : string;
  database : option string;
  allow_insert : bool;
  allow_update : bool;
  allow_delete : bool;
  big_int_as_number : bool;
  decimal_as_number : bool;
  check_number_range : bool;
}.
End MariaDBConfig.

(** Truthiness of a value of type [string | undefined]: a non-empty
    string. *)
Definition truthy (s : option string) : bool :=
  match s with
  | Some "" => false
  | Some _ => true
  | None => false
  end.

(** [if (!x) throw new Error(msg)], with [x] narrowed to [string] after
    it. *)
Definition required (x : option string) (msg : string) : result string :=
  match x with
  | Some s => if truthy x then ok s else throw (Error msg)
  | None => throw (Error msg)
  end.

(** ** The driver and the module state *)

(** Default connection timeout in milliseconds *)
Definition DEFAULT_TIMEOUT : Z := 10000.

(** Default row limit for query results *)
Definition DEFAULT_ROW_LIMIT : nat := 1000.

(** The options object handed to [mariadb.createPool]. *)
Module PoolConfig.
Record t : Type := Build {
  host : string;
  port : number;
  user : string;
  password : string;
  database : option string;
  connectionLimit : Z;
  connectTimeout : Z;
  bigIntAsNumber : bool;
  decimalAsNumber : bool;
  checkNumberRange : bool;
}.
End PoolConfig.

(** A pool object and a checked-out connection object.  The identifiers
    stand for object identity. *)
Record Pool : Type := { pool_id : nat; pool_config : PoolConfig.t }.
Record PoolConnection : Type := { conn_id : nat; conn_pool : nat }.

(** The options object of the main [connection.query] call. *)
Module QueryOptions.
Record t : Type := Build {
  sql : string;
  namedPlaceholders : bool;
  metaAsArray : bool;
  timeout : Z;
}.
End QueryOptions.

(** First argument of [connection.query]: a statement or an options
    object. *)
Inductive QueryArg : Type :=
| QSql (sql : string)
| QOpts (opts : QueryOptions.t).

(** The calls the module makes on the driver, in the shape it makes
    them. *)
Inductive DriverCall : Type :=
| CreatePool (cfg : PoolConfig.t)
| GetConnection (p : Pool)
| Query (c : PoolConnection) (q : QueryArg) (params : option (list value))
| Release (c : PoolConnection)
| EndPool (p : Pool).

(** What a resolved [connection.query] yields: the value itself and the
    value of its [meta] property ([VUndefined] when it has none). *)
Record DriverResult : Type := { dr_value : value; dr_meta : value }.

(** State of the driver: the next fresh object identifier, the leases
    that are checked out and not yet released, the pools on which [end]
    was called, and every call received so far, oldest first. *)
Record Driver : Type := {
  next_id : nat;
  leased : list PoolConnection;
  ended : list Pool;
  calls : list DriverCall;
}.

(** The module-level variables [pool] and [connection], and the driver. *)
Record Machine : Type := {
  pool : option Pool;
  connection : option PoolConnection;
  driver : Driver;
}.

Definition initial : Machine :=
  {| pool := None; connection := None;
     driver := {| next_id := 0; leased := []; ended := []; calls := [] |} |}.

(** What the driver answers during one invocation.  An invocation calls
    [createPool] and [getConnection] at most once each and [query] at most
    twice, for the database switch and then for the statement, so one
    answer for each of the four describes every behaviour of the driver. *)
Record Outcomes : Type := {
  createPool_throws : option exn;
  getConnection_rejects : option exn;
  use_rejects : option exn;
  query_outcome : result DriverResult;
}.

(** A computation on the machine that may throw. *)
Definition M (A : Type) : Type := Machine → result A * Machine.

Definition ret {A} (a : A) : M A := λ m, (ok a, m).
Definition raise {A} (e : exn) : M A := λ m, (throw e, m).
Definition bind {A B} (c : M A) (k : A → M B) : M B :=
  λ m, match c m with
       | (inl e, m') => (inl e, m')
       | (inr a, m') => k a m'
       end.
Definition lift {A} (r : result A) : M A := λ m, (r, m).

Notation "'let*' x ':=' c 'in' k" := (bind c (fun x => k))
  (at level 10, x pattern, c at level 200, k at level 200).

(** [try { body } catch (error) { throw error } finally { fin }] *)
Definition try_finally {A} (body : M A) (fin : M unit) : M A :=
  λ m, match body m with
       | (r, m1) =>
           match fin m1 with
           | (inl e, m2) => (inl e, m2)
           | (inr _, m2) => (r, m2)
           end
       end.

Definition get_pool : M (option Pool) := λ m, (ok (pool m), m).
Definition get_connection : M (option PoolConnection) :=
  λ m, (ok (connection m), m).
Definition set_pool (p : option Pool) : M unit :=
  λ m, (ok tt, {| pool := p; connection := connection m; driver := driver m |}).
Definition set_connection (c : option PoolConnection) : M unit :=
  λ m, (ok tt, {| pool := pool m; connection := c; driver := driver m |}).
Definition on_driver {A} (f : Driver → result A * Driver) : M A :=
  λ m, match f (driver m) with
       | (r, d) => (r, {| pool := pool m; connection := connection m;
                          driver := d |})
       end.

Definition record_call (c : DriverCall) (d : Driver) : Driver :=
  {| next_id := next_id d; leased := leased d; ended := ended d;
     calls := calls d ++ [c] |}.

(** [mariadb.createPool(cfg)]: a new pool object, or a construction
    error. *)
Definition drv_createPool (answer : option exn) (cfg : PoolConfig.t)
  : M Pool :=
  on_driver (λ d,
    let d := record_call (CreatePool cfg) d in
    match answer with
    | Some e => (throw e, d)
    | None =>
        (ok {| pool_id := next_id d; pool_config := cfg |},
         {| next_id := S (next_id d); leased := leased d; ended := ended d;
            calls := calls d |})
    end).

(** [pool.getConnection()]: a new lease, or a rejection. *)
Definition drv_getConnection (answer : option exn) (p : Pool)
  : M PoolConnection :=
  on_driver (λ d,
    let d := record_call (GetConnection p) d in
    match answer with
    | Some e => (throw e, d)
    | None =>
        let c := {| conn_id := next_id d; conn_pool := pool_id p |} in
        (ok c,
         {| next_id := S (next_id d); leased := c :: leased d;
            ended := ended d; calls := calls d |})
    end).

(** [connection.query(q, params)] *)
Definition drv_query (answer : result DriverResult) (c : PoolConnection)
    (q : QueryArg) (params : option (list value)) : M DriverResult :=
  on_driver (λ d, (answer, record_call (Query c q params) d)).

(** [connection.release()]: the lease goes back to its pool.  The source
    does not await the promise; the return of the lease is taken to happen
    with the call. *)
Definition drv_release (c : PoolConnection) : M unit :=
  on_driver (λ d,
    let d := record_call (Release c) d in
    (ok tt,
     {| next_id := next_id d;
        leased := filter (λ c', conn_id c' ≠ conn_id c) (leased d);
        ended := ended d; calls := calls d |})).

(** [pool.end()] *)
Definition drv_end (answer : option exn) (p : Pool) : M unit :=
  on_driver (λ d,
    let d := record_call (EndPool p) d in
    (match answer with Some e => throw e | None => ok tt end,
     {| next_id := next_id d; leased := leased d; ended := p :: ended d;
        calls := calls d |})).

(** Number of leases checked out and not released. *)
Definition outstanding (m : Machine) : nat := length (leased (driver m)).

(** [JSON.stringify(params)] throws a [TypeError] when it meets a bigint;
    this is evaluated inside the success log line of [executeQuery]. *)
Fixpoint has_bigint (v : value) : bool :=
  match v with
  | VBigInt _ => true
  | VArray elems => existsb has_bigint elems
  | VObject fields => existsb (λ kv, has_bigint (snd kv)) fields
  | _ => false
  end.

Definition JSON_stringify_check (params : list value) : result unit :=
  if existsb has_bigint params
  then throw (Error "Do not know how to serialize a BigInt")
  else ok tt.

(** [x == null] *)
Definition nullish (v : value) : bool :=
  match v with
  | VUndefined | VNull => true
  | _ => false
  end.

(** What [executeQuery] resolves to. *)
Record QueryOutput : Type := { rows : value; fields : value }.

Section Connection.

(** [parseInt(s, 10)] of the JavaScript runtime. *)
Variable parseInt : string → number.

(** [isAlloowedQuery] of [validators.ts]; it receives the statement
    only, the policy flags being those of the process environment. *)
Variable isAlloowedQuery : Env → string → bool.

Definition getConfigFromEnv (env : Env) : result MariaDBConfig.t :=
  let host := env !! "MARIADB_HOST" in
  let portStr := env !! "MARIADB_PORT" in
  let user := env !! "MARIADB_USER" in
  let password := env !! "MARIADB_PASSWORD" in
  let database := env !! "MARIADB_DATABASE" in
  let allow_insert := env_is_true env "MARIADB_ALLOW_INSERT" in
  let allow_update := env_is_true env "MARIADB_ALLOW_UPDATE" in
  let allow_delete := env_is_true env "MARIADB_ALLOW_DELETE" in
  let big_int_as_number := env_is_true env "MARIADB_BIG_INT_AS_NUMBER" in
  let decimal_as_number := env_is_true env "MARIADB_DECIMAL_AS_NUMBER" in
  let check_number_range := env_is_true env "MARIADB_CHECK_NUMBER_RANGE" in
  let! host := required host "MARIADB_HOST environment variable is required" in
  let! user := required user "MARIADB_USER environment variable is required" in
  let! password :=
    required password "MARIADB_PASSWORD environment variable is required" in
  let port :=
    match portStr with
    | Some s => if truthy portStr then parseInt s else Number 3306
    | None => Number 3306
    end in
  ok (MariaDBConfig.Build host port user password database
        allow_insert allow_update allow_delete
        big_int_as_number decimal_as_number check_number_range).

(** Create a MariaDB connection pool *)
Definition createConnectionPool (o : Outcomes) (env : Env) : M Pool :=
  let* config := lift (getConfigFromEnv env) in
  let* pool := get_pool in
  match pool with
  | Some p => ret p
  | None =>
      let* p :=
        drv_createPool (createPool_throws o)
          (PoolConfig.Build
             (MariaDBConfig.host config)
             (MariaDBConfig.port config)
             (MariaDBConfig.user config)
             (MariaDBConfig.password config)
             (MariaDBConfig.database config)
             2
             DEFAULT_TIMEOUT
             (MariaDBConfig.big_int_as_number config)
             (MariaDBConfig.decimal_as_number config)
             (MariaDBConfig.check_number_range config)) in
      let* _ := set_pool (Some p) in
      ret p
  end.

(** Apply row limit if result is an array *)
Definition limitRows (rows : value) : value :=
  match rows with
  | VArray elems =>
      if Nat.ltb DEFAULT_ROW_LIMIT (length elems)
      then VArray (firstn DEFAULT_ROW_LIMIT elems)
      else rows
  | _ => rows
  end.

(** The [try] block of [executeQuery]. *)
Definition executeQuery_body (o : Outcomes) (env : Env) (sql : string)
    (params : list value) (database : option string) (p : Pool)
  : M QueryOutput :=
  (* Get connection from pool *)
  let* held := get_connection in
  let* c :=
    match held with
    | Some c => ret c
    | None =>
        let* c := drv_getConnection (getConnection_rejects o) p in
        let* _ := set_connection (Some c) in
        ret c
    end in
  (* Use specific database if provided *)
  let* _ :=
    match database with
    | Some db =>
        if truthy database then
          let* _ :=
            drv_query
              (match use_rejects o with
               | Some e => throw e
               | None => ok {| dr_value := VUndefined; dr_meta := VUndefined |}
               end)
              c (QSql ("USE `" +:+ db +:+ "`")) None in
          ret tt
        else ret tt
    | None => ret tt
    end in
  if negb (isAlloowedQuery env sql) then raise (Error "Query not allowed")
  else
    let* result :=
      drv_query (query_outcome o) c
        (QOpts (QueryOptions.Build sql true true DEFAULT_TIMEOUT))
        (Some params) in
    let rows := dr_value result in
    let fields :=
      if nullish (dr_meta result) then VArray [] else dr_meta result in
    let limitedRows := limitRows rows in
    let* normalizedRows := lift (normalizeRow env limitedRows) in
    let* _ := lift (JSON_stringify_check params) in
    ret {| rows := normalizedRows; fields := fields |}.

(** The [finally] block of [executeQuery]:
    release connection back to pool. *)
Definition executeQuery_finally : M unit :=
  let* held := get_connection in
  match held with
  | Some c =>
      let* _ := drv_release c in
      set_connection None
  | None => ret tt
  end.

(** Execute a query with error handling and logging *)
Definition executeQuery (o : Outcomes) (env : Env) (sql : string)
    (params : list value) (database : option string) : M QueryOutput :=
  (* Create connection pool if not already created *)
  let* installed := get_pool in
  let* p :=
    match installed with
    | Some p => ret p
    | None =>
        let* p := createConnectionPool o env in
        let* _ := set_pool (Some p) in
        ret p
    end in
  try_finally (executeQuery_body o env sql params database p)
              executeQuery_finally.

(** [endConnection]: ends the pool when there is one. *)
Definition endConnection (answer : option exn) : M unit :=
  let* installed := get_pool in
  match installed with
  | Some p => drv_end answer p
  | None => ret tt
  end.

End Connection.

(** ** States the module can be in *)

(** The machines reachable from the freshly loaded module by calls of the
    three exported operations, one after the other, under any environment
    and any behaviour of the driver. *)
Inductive reachable (parseInt : string → number)
    (isAlloowedQuery : Env → string → bool) : Machine → Prop :=
| reachable_initial :
    reachable parseInt isAlloowedQuery initial
| reachable_createConnectionPool o env m :
    reachable parseInt isAlloowedQuery m →
    reachable parseInt isAlloowedQuery
      (snd (createConnectionPool parseInt o env m))
| reachable_executeQuery o env sql params database m :
    reachable parseInt isAlloowedQuery m →
    reachable parseInt isAlloowedQuery
      (snd (executeQuery parseInt isAlloowedQuery o env sql params database m))
| reachable_endConnection answer m :
    reachable parseInt isAlloowedQuery m →
    reachable parseInt isAlloowedQuery (snd (endConnection answer m)).

(** The calls an invocation adds to the driver's record. *)
Definition new_calls (before after : Machine) : list DriverCall :=
  drop (length (calls (driver before))) (calls (driver after)).

Definition is_GetConnection (c : DriverCall) : bool :=
  match c with GetConnection _ => true | _ => false end.

Definition is_CreatePool (c : DriverCall) : bool :=
  match c with CreatePool _ => true | _ => false end.

Definition is_Query (c : DriverCall) : bool :=
  match c with Query _ _ _ => true | _ => false end.

(** Number of physical checkouts requested so far. *)
Definition checkouts (m : Machine) : nat :=
  length (filter (λ c, is_GetConnection c = true) (calls (driver m))).

(** Number of pools constructed or attempted so far. *)
Definition constructions (m : Machine) : nat :=
  length (filter (λ c, is_CreatePool c = true) (calls (driver m))).

(** ** The result of normalisation, as a function *)

(** What [convertScalar] yields when it does not throw. *)
Definition coerceScalar (v : value) : value :=
  match v with
  | VBigInt z => VNumber (Number z)
  | _ => v
  end.

(** What [normalizeRow] yields when it does not throw: arrays are walked
    to any depth, the own fields of a record met on the way are coerced,
    and nothing else is entered. *)
Fixpoint coerceRow (row : value) : value :=
  match row with
  | VArray elems => VArray (map coerceRow elems)
  | VObject fields =>
      VObject (map (λ kv, (fst kv, coerceScalar (snd kv))) fields)
  | other => other
  end.

(** A bigint field of a record met by the walk lies outside the safe
    range. *)
Definition unsafe_scalar (v : value) : bool :=
  match v with
  | VBigInt z => ((z >? MAX_SAFE) || (z <? - MAX_SAFE))%Z
  | _ => false
  end.

Fixpoint unsafe_row (row : value) : bool :=
  match row with
  | VArray elems => existsb unsafe_row elems
  | VObject fields => existsb (λ kv, unsafe_scalar (snd kv)) fields
  | _ => false
  end.

(** ** Vocabulary of the properties *)

(** A variable that is absent or empty. *)
Definition missing (env : Env) (k : string) : Prop :=
  env !! k = None ∨ env !! k = Some "".

(** A variable that is present and not empty. *)
Definition present (env : Env) (k : string) (s : string) : Prop :=
  env !! k = Some s ∧ s ≠ "".

Definition required_message (k : string) : string :=
  k +:+ " environment variable is required".

(** Leases handed out so far carry identifiers below the next fresh
    one. *)
Definition leases_known (m : Machine) : Prop :=
  Forall (λ c, conn_id c < next_id (driver m))%nat (leased (driver m)).

(** The submitted statement going to the database. *)
Definition is_statement (call : DriverCall) : bool :=
  match call with
  | Query _ (QOpts _) _ => true
  | _ => false
  end.

(** The lease the guarded part works with: the one held, or else the
    one the pool hands out. *)
Definition lease_used (p : Pool) (m : Machine) : PoolConnection :=
  match connection m with
  | Some c => c
  | None => {| conn_id := next_id (driver m); conn_pool := pool_id p |}
  end.

Definition use_calls (c : PoolConnection) (database : option string)
  : list DriverCall :=
  match database with
  | Some db =>
      if truthy database then [Query c (QSql ("USE `" +:+ db +:+ "`")) None]
      else []
  | None => []
  end.

(** The guarded part gets as far as the validator. *)
Definition reaches_validator (o : Outcomes) (database : option string)
    (m : Machine) : bool :=
  match connection m, getConnection_rejects o with
  | None, Some _ => false
  | _, _ =>
      match use_rejects o with
      | Some _ => negb (truthy database)
      | None => true
      end
  end.

(** Calls of the [try] / [finally] part, in order. *)
Definition guarded_calls (isAlloowedQuery : Env → string → bool)
    (o : Outcomes) (env : Env) (sql : string)
    (params : list value) (database : option string) (p : Pool)
    (m : Machine) : list DriverCall :=
  match connection m, getConnection_rejects o with
  | None, Some _ => [GetConnection p]
  | held, _ =>
      let c := lease_used p m in
      match held with Some _ => [] | None => [GetConnection p] end
      ++ use_calls c database
      ++ (if reaches_validator o database m && isAlloowedQuery env sql
          then [Query c (QOpts (QueryOptions.Build sql true true
                                  DEFAULT_TIMEOUT)) (Some params)]
          else [])
      ++ [Release c]
  end.

(** The same driver behaviour, with another value for the query. *)
Definition with_rows (o : Outcomes) (v meta : value) : Outcomes :=
  {| createPool_throws := createPool_throws o;
     getConnection_rejects := getConnection_rejects o;
     use_rejects := use_rejects o;
     query_outcome := ok {| dr_value := v; dr_meta := meta |} |}.

(** ** Concrete collaborators for examples *)

Definition is_whitespace (a : ascii) : bool :=
  match a with
  | " " | "009" | "010" | "011" | "012" | "013" => true
  | _ => false
  end%char.

Definition is_digit (a : ascii) : bool :=
  let n := Ascii.N_of_ascii a in ((48 <=? n) && (n <=? 57))%N.

Fixpoint skip_whitespace (s : string) : string :=
  match s with
  | String a rest => if is_whitespace a then skip_whitespace rest else s
  | EmptyString => s
  end.

(** Value of the longest prefix of decimal digits, [None] when it is
    empty. *)
Fixpoint digits_prefix (acc : option Z) (s : string) : option Z :=
  match s with
  | String a rest =>
      if is_digit a then
        digits_prefix
          (Some (10 * default 0%Z acc + (Z.of_N (Ascii.N_of_ascii a) - 48))%Z)
          rest
      else acc
  | EmptyString => acc
  end.

(** [parseInt(s, 10)] on ASCII input: leading white space, an optional
    sign, then the longest prefix of digits; [NaN] when there is none. *)
Definition parseInt10 (s : string) : number :=
  let s := skip_whitespace s in
  let '(negative, s) :=
    match s with
    | String "-" rest => (true, rest)
    | String "+" rest => (false, rest)
    | _ => (false, s)
    end in
  match digits_prefix None s with
  | None => S754_nan
  | Some n => binary_normalize 53 1024 (if negative then - n else n) 0 negative
  end.

(** Modelled from the spec: the stripping of leading white space and of
    leading inline ([--]) and block comments that section 4.1 places before
    the keyword is read; part of [isAlloowedQuery] of [validators.ts],
    which is not among the sources. *)
Inductive scan_mode : Type := InCode | InLineComment | InBlockComment.

(** Modelled from the spec: see [scan_mode]. *)
Fixpoint strip_leading (mode : scan_mode) (s : string) : string :=
  match s with
  | EmptyString => EmptyString
  | String a rest =>
      match mode with
      | InCode =>
          if is_whitespace a then strip_leading InCode rest
          else
            match a, rest with
            | "-"%char, String "-" rest' => strip_leading InLineComment rest'
            | "/"%char, String "*" rest' => strip_leading InBlockComment rest'
            | _, _ => s
            end
      | InLineComment =>
          if Ascii.eqb a "010" then strip_leading InCode rest
          else strip_leading InLineComment rest
      | InBlockComment =>
          match a, rest with
          | "*"%char, String "/" rest' => strip_leading InCode rest'
          | _, _ => strip_leading InBlockComment rest
          end
      end
  end.

Definition upper (a : ascii) : ascii :=
  let n := Ascii.N_of_ascii a in
  if ((97 <=? n) && (n <=? 122))%N then Ascii.ascii_of_N (n - 32) else a.

Definition is_upper_letter (a : ascii) : bool :=
  let n := Ascii.N_of_ascii a in ((65 <=? n) && (n <=? 90))%N.

(** Modelled from the spec: the leading keyword of section 4.1, read
    without regard to case. *)
Fixpoint leading_keyword (s : string) : string :=
  match s with
  | String a rest =>
      if is_upper_letter (upper a) then String (upper a) (leading_keyword rest)
      else EmptyString
  | EmptyString => EmptyString
  end.

(** Modelled from the spec: [isAlloowedQuery] of [validators.ts], which is
    not among the sources.  Section 4.1: the leading keyword is taken after
    leading white space and comments are stripped and compared without
    regard to case; SELECT, SHOW and DESCRIBE are always allowed, INSERT,
    UPDATE and DELETE when the flag of that name is set, everything else
    (the empty statement included) is rejected. *)
Definition isAllowed (env : Env) (sql : string) : bool :=
  let verb := leading_keyword (strip_leading InCode sql) in
  if String.eqb verb "SELECT" then true
  else if String.eqb verb "SHOW" then true
  else if String.eqb verb "DESCRIBE" then true
  else if String.eqb verb "INSERT" then env_is_true env "MARIADB_ALLOW_INSERT"
  else if String.eqb verb "UPDATE" then env_is_true env "MARIADB_ALLOW_UPDATE"
  else if String.eqb verb "DELETE" then env_is_true env "MARIADB_ALLOW_DELETE"
  else false.

(** A complete environment, and one that lacks the password. *)
Definition env_ok : Env :=
  <["MARIADB_HOST" := "db.local"]>
    (<["MARIADB_USER" := "app"]> (<["MARIADB_PASSWORD" := "secret"]> ∅)).

Definition env_no_password : Env :=
  <["MARIADB_HOST" := "db.local"]> (<["MARIADB_USER" := "app"]> ∅).

(** A driver that answers every request, the query with [rows]. *)
Definition answers (rows : value) : Outcomes :=
  {| createPool_throws := None;
     getConnection_rejects := None;
     use_rejects := None;
     query_outcome := ok {| dr_value := rows; dr_meta := VUndefined |} |}.

(** A driver whose query fails, as on a timeout. *)
Definition query_fails : Outcomes :=
  {| createPool_throws := None;
     getConnection_rejects := None;
     use_rejects := None;
     query_outcome := throw (Error "Query timed out") |}.

(** The module run with these collaborators. *)
Definition run_executeQuery := executeQuery parseInt10 isAllowed.
Definition run_createConnectionPool := createConnectionPool parseInt10.

(** The pool that [env_ok] gives rise to when it is the first object the
    driver makes, and the first two leases after it. *)
Definition pool_config0 : PoolConfig.t :=
  PoolConfig.Build "db.local" (Number 3306) "app" "secret" None 2 10000
    false false false.
Definition pool0 : Pool := {| pool_id := 0; pool_config := pool_config0 |}.
Definition lease1 : PoolConnection := {| conn_id := 1; conn_pool := 0 |}.
Definition lease2 : PoolConnection := {| conn_id := 2; conn_pool := 0 |}.

(** The main query call for a statement without parameters. *)
Definition statement (c : PoolConnection) (sql : string) : DriverCall :=
  Query c (QOpts (QueryOptions.Build sql true true 10000)) (Some []).

(** A result set of [n] rows, numbered from 0 in a bigint column. *)
Definition numbered_rows (n : nat) : list value :=
  map (λ i, VObject [("id", VBigInt (Z.of_nat i))]) (seq 0 n).

(** The module after one successful [SELECT 1]. *)
Definition after_select : Machine :=
  snd (run_executeQuery (answers (VArray [])) env_ok "SELECT 1" [] None
         initial).

(** A machine in which a lease is held when the invocation starts. *)
Definition lease_held : Machine :=
  {| pool := Some pool0; connection := Some lease1;
     driver := {| next_id := 2; leased := [lease1]; ended := [];
                  calls := [CreatePool pool_config0; GetConnection pool0] |} |}.

(** ** Vocabulary of the further properties *)

(** The integer a number denotes, when it is finite and denotes one. *)
Definition number_value (n : number) : option Z :=
  match n with
  | S754_zero _ => Some 0%Z
  | S754_finite s m e =>
      let signed (v : Z) := if s then (- v)%Z else v in
      match e with
      | Zneg k =>
          if (Z.pos m mod 2 ^ Z.pos k =? 0)%Z
          then Some (signed (Z.pos m / 2 ^ Z.pos k)%Z)
          else None
      | _ => Some (signed (Z.pos m * 2 ^ e)%Z)
      end
  | _ => None
  end.

(** The error [convertScalar] throws for [z]. *)
Definition range_error (z : Z) : exn :=
  Error ("BIGINT out of safe JS range: " +:+ bigint_toString z).

(** The first bigint outside the safe range that the walk of
    [normalizeRow] meets, in the order of the walk. *)
Definition first_unsafe_scalar (v : value) : option Z :=
  match v with
  | VBigInt z =>
      if ((z >? MAX_SAFE) || (z <? - MAX_SAFE))%Z then Some z else None
  | _ => None
  end.

Fixpoint first_unsafe_field (fields : list (string * value)) : option Z :=
  match fields with
  | [] => None
  | (_, v) :: rest =>
      match first_unsafe_scalar v with
      | Some z => Some z
      | None => first_unsafe_field rest
      end
  end.

Fixpoint first_unsafe (row : value) : option Z :=
  match row with
  | VArray elems =>
      (fix first_in (l : list value) : option Z :=
         match l with
         | [] => None
         | x :: xs =>
             match first_unsafe x with
             | Some z => Some z
             | None => first_in xs
             end
         end) elems
  | VObject fields => first_unsafe_field fields
  | _ => None
  end.

Definition is_scalar (v : value) : bool :=
  match v with
  | VArray _ | VObject _ => false
  | _ => true
  end.

(** Result sets made of records whose fields are scalars, the records
    sitting in arrays nested to any depth; no bigint stands directly in an
    array. *)
Fixpoint record_rows (v : value) : bool :=
  match v with
  | VArray elems => forallb record_rows elems
  | VObject fields => forallb (λ kv, is_scalar (snd kv)) fields
  | VBigInt _ => false
  | _ => true
  end.

(** The outline of a value as far as [normalizeRow] walks it: the nesting
    of the arrays with their lengths, and the keys of the records in
    order. *)
Fixpoint shape (v : value) : value :=
  match v with
  | VArray elems => VArray (map shape elems)
  | VObject fields => VObject (map (λ kv, (fst kv, VNull)) fields)
  | _ => VNull
  end.

(** Pool set-up lets the invocation through: a pool is installed, or the
    configuration resolves and the driver constructs one. *)
Definition pool_ready (parseInt : string → number) (o : Outcomes) (env : Env)
    (m : Machine) : bool :=
  match pool m with
  | Some _ => true
  | None =>
      match getConfigFromEnv parseInt env, createPool_throws o with
      | inr _, None => true
      | _, _ => false
      end
  end.

(** A lease is at hand: one is held, or the pool hands one out. *)
Definition lease_obtained (o : Outcomes) (m : Machine) : bool :=
  match connection m, getConnection_rejects o with
  | None, Some _ => false
  | _, _ => true
  end.

(** What the guarded part returns once the validator has let the statement
    through. *)
Definition query_result (o : Outcomes) (env : Env) (params : list value)
  : result QueryOutput :=
  let! result := query_outcome o in
  let! normalizedRows := normalizeRow env (limitRows (dr_value result)) in
  let! _ := JSON_stringify_check params in
  ok {| rows := normalizedRows;
        fields := if nullish (dr_meta result) then VArray []
                  else dr_meta result |}.

Definition is_Release (c : DriverCall) : bool :=
  match c with Release _ => true | _ => false end.

(** The database-switch statement going to the database. *)
Definition is_switch (c : DriverCall) : bool :=
  match c with Query _ (QSql _) _ => true | _ => false end.

(** A driver call is consistent with [p] being the one pool in use. *)
Definition on_pool (p : Pool) (call : DriverCall) : Prop :=
  match call with
  | CreatePool _ => True
  | GetConnection p' => p' = p
  | Query c _ _ => conn_pool c = pool_id p
  | Release c => conn_pool c = pool_id p
  | EndPool p' => p' = p
  end.

(** The state of the module between invocations. *)
Definition between_calls (m : Machine) : Prop :=
  connection m = None
  ∧ leased (driver m) = []
  ∧ match pool m with
    | Some p => Forall (on_pool p) (calls (driver m))
                ∧ Forall (λ p', p' = p) (ended (driver m))
    | None => Forall (λ call, is_CreatePool call = true) (calls (driver m))
              ∧ ended (driver m) = []
    end.

(** ** Vocabulary of the life cycle in full *)

(** The lease an invocation works with once pool set-up has succeeded with
    pool [p]: the lease held at the start, or else the one the checkout
    returns, which is the next object the driver makes (after the pool,
    when the invocation constructs it). *)
Definition invocation_lease (m : Machine) (p : Pool) : PoolConnection :=
  match connection m with
  | Some c => c
  | None =>
      {| conn_id := match pool m with
                    | Some _ => next_id (driver m)
                    | None => S (next_id (driver m))
                    end;
         conn_pool := pool_id p |}
  end.

(** The bigints [normalizeRow] hands to [convertScalar], in the order of
    the walk: the bigint field values of the records reached through
    arrays alone. *)
Fixpoint bigint_fields (row : value) : list Z :=
  match row with
  | VArray elems => flat_map bigint_fields elems
  | VObject fields =>
      flat_map (λ kv, match snd kv with VBigInt z => [z] | _ => [] end) fields
  | _ => []
  end.

Definition unsafe_bigint (z : Z) : bool :=
  ((z >? MAX_SAFE) || (z <? - MAX_SAFE))%Z.

(** What the connector resolves a query to, by its documentation of the
    option [metaAsArray]: with the option on, the two-element array
    [[rows, meta]]; with it off, the rows themselves, carrying the metadata
    in their [meta] property. *)
Definition connector_reply (opts : QueryOptions.t) (rows meta : value)
  : DriverResult :=
  if QueryOptions.metaAsArray opts
  then {| dr_value := VArray [rows; meta]; dr_meta := VUndefined |}
  else {| dr_value := rows; dr_meta := meta |}.

(** * Properties *)

(** ** Induction on values *)

Section ValueInd.
Variable P : value → Prop.
Hypothesis Hundef : P VUndefined.
Hypothesis Hnull : P VNull.
Hypothesis Hbool : ∀ b, P (VBool b).
Hypothesis Hnumber : ∀ n, P (VNumber n).
Hypothesis Hstring : ∀ s, P (VString s).
Hypothesis Hbigint : ∀ z, P (VBigInt z).
Hypothesis Hdate : ∀ ms, P (VDate ms).
Hypothesis Hbuffer : ∀ bs, P (VBuffer bs).
Hypothesis Harray : ∀ elems, Forall P elems → P (VArray elems).
Hypothesis Hobject : ∀ fields, P (VObject fields).

Fixpoint value_deep_ind (v : value) : P v :=
  match v with
  | VUndefined => Hundef
  | VNull => Hnull
  | VBool b => Hbool b
  | VNumber n => Hnumber n
  | VString s => Hstring s
  | VBigInt z => Hbigint z
  | VDate ms => Hdate ms
  | VBuffer bs => Hbuffer bs
  | VArray elems =>
      Harray elems
        ((fix all (l : list value) : Forall P l :=
            match l with
            | [] => @List.Forall_nil _ P
            | x :: xs => @List.Forall_cons _ P x xs (value_deep_ind x) (all xs)
            end) elems)
  | VObject fields => Hobject fields
  end.
End ValueInd.

(** ** Normalisation *)

Lemma normalizeRow_array env elems :
  normalizeRow env (VArray elems) =
  (let! elems' := normalizeRows env elems in ok (VArray elems')).
Proof.
  simpl. f_equal. induction elems as [|x xs IH]; simpl; [done|].
  by rewrite IH.
Qed.

Lemma convertScalar_safe env v :
  env_is_true env "MARIADB_CHECK_NUMBER_RANGE" && unsafe_scalar v = false →
  convertScalar env v = ok (coerceScalar v).
Proof.
  destruct v; simpl; try done.
  destruct (env_is_true env _); simpl; [|done].
  by intros ->.
Qed.

Lemma convertScalar_unsafe env v :
  env_is_true env "MARIADB_CHECK_NUMBER_RANGE" && unsafe_scalar v = true →
  ∃ e, convertScalar env v = throw e.
Proof.
  destruct v; simpl; rewrite ?andb_false_r; try done.
  intros [-> ->]%andb_true_iff. eauto.
Qed.

Lemma convertFields_safe env fields :
  env_is_true env "MARIADB_CHECK_NUMBER_RANGE"
    && existsb (λ kv, unsafe_scalar (snd kv)) fields = false →
  convertFields env fields =
  ok (map (λ kv, (fst kv, coerceScalar (snd kv))) fields).
Proof.
  induction fields as [|[k v] rest IH]; simpl; [done|].
  rewrite andb_orb_distrib_r. intros [Hv Hrest]%orb_false_iff.
  by rewrite (convertScalar_safe _ _ Hv), (IH Hrest).
Qed.

Lemma convertFields_unsafe env fields :
  env_is_true env "MARIADB_CHECK_NUMBER_RANGE"
    && existsb (λ kv, unsafe_scalar (snd kv)) fields = true →
  ∃ e, convertFields env fields = throw e.
Proof.
  induction fields as [|[k v] rest IH]; simpl.
  { by rewrite andb_false_r. }
  rewrite andb_orb_distrib_r.
  destruct (env_is_true env _ && unsafe_scalar v) eqn:Hv; simpl.
  - destruct (convertScalar_unsafe _ _ Hv) as [e ->]. eauto.
  - intros Hrest. rewrite (convertScalar_safe _ _ Hv). simpl.
    destruct (IH Hrest) as [e ->]. eauto.
Qed.

(** [normalizeRow] either throws, exactly when the range check is on and
    the walk meets an unsafe bigint field, or returns [coerceRow]. *)
Lemma normalizeRow_cases env row :
  if env_is_true env "MARIADB_CHECK_NUMBER_RANGE" && unsafe_row row
  then ∃ e, normalizeRow env row = throw e
  else normalizeRow env row = ok (coerceRow row).
Proof.
  induction row as [| | | | | | | |elems IH|fields] using value_deep_ind;
    try (simpl; by rewrite andb_false_r).
  - rewrite normalizeRow_array. simpl.
    induction IH as [|x xs Hx _ IHxs]; simpl.
    { by rewrite andb_false_r. }
    rewrite andb_orb_distrib_r.
    destruct (env_is_true env _ && unsafe_row x); simpl.
    + destruct Hx as [e ->]. eauto.
    + rewrite Hx. simpl.
      destruct (env_is_true env _ && existsb unsafe_row xs).
      * destruct IHxs as [e He].
        destruct (normalizeRows env xs); simpl in *; [eauto|done].
      * destruct (normalizeRows env xs); simpl in *; [done|].
        by simplify_eq.
  - simpl.
    destruct (env_is_true env _ && existsb _ fields) eqn:Hf.
    + destruct (convertFields_unsafe _ _ Hf) as [e ->]. eauto.
    + by rewrite (convertFields_safe _ _ Hf).
Qed.

Lemma env_is_true_spec (env : Env) k :
  env_is_true env k = true ↔ env !! k = Some "true".
Proof. unfold env_is_true. apply bool_decide_eq_true. Qed.

Lemma env_is_true_false (env : Env) k :
  env_is_true env k = false ↔ env !! k ≠ Some "true".
Proof. unfold env_is_true. apply bool_decide_eq_false. Qed.

(** [convertScalar] on a bigint: with the range check enabled
    ([MARIADB_CHECK_NUMBER_RANGE] equal to ["true"]) and a magnitude above
    [Number.MAX_SAFE_INTEGER] it throws an error whose message names the
    value in decimal; with the check enabled and the magnitude within the
    limit, and in every case with the check disabled, the value is coerced
    with [Number] and nothing is thrown. *)
Theorem convertScalar_bigint_range (env : Env) (z : Z) :
  (env !! "MARIADB_CHECK_NUMBER_RANGE" = Some "true" →
   (Z.abs z > MAX_SAFE)%Z →
   convertScalar env (VBigInt z) =
   throw (Error ("BIGINT out of safe JS range: " +:+ bigint_toString z)))
  ∧ (env !! "MARIADB_CHECK_NUMBER_RANGE" = Some "true" →
     (Z.abs z <= MAX_SAFE)%Z →
     convertScalar env (VBigInt z) = ok (VNumber (Number z)))
  ∧ (env !! "MARIADB_CHECK_NUMBER_RANGE" ≠ Some "true" →
     convertScalar env (VBigInt z) = ok (VNumber (Number z))).
Proof.
  unfold convertScalar. repeat split.
  - intros Hon%env_is_true_spec Hbig. rewrite Hon.
    assert (((z >? MAX_SAFE) || (z <? - MAX_SAFE))%Z = true) as ->; [|done].
    apply orb_true_iff. rewrite Z.gtb_lt, Z.ltb_lt. lia.
  - intros Hon%env_is_true_spec Hsmall. rewrite Hon.
    assert (((z >? MAX_SAFE) || (z <? - MAX_SAFE))%Z = false) as ->; [|done].
    apply orb_false_iff. rewrite Z.gtb_ltb, !Z.ltb_ge. lia.
  - intros Hoff%env_is_true_false. by rewrite Hoff.
Qed.

Lemma convertScalar_bigint_range_witness :
  convertScalar {["MARIADB_CHECK_NUMBER_RANGE" := "true"]}
    (VBigInt (-9007199254740992)) =
  throw (Error "BIGINT out of safe JS range: -9007199254740992")
  ∧ convertScalar {["MARIADB_CHECK_NUMBER_RANGE" := "true"]}
      (VBigInt 9007199254740991) =
    ok (VNumber (S754_finite false 9007199254740991 0))
  ∧ convertScalar {["MARIADB_CHECK_NUMBER_RANGE" := "false"]}
      (VBigInt (-9007199254740992)) =
    ok (VNumber (S754_finite true 4503599627370496 1)).
Proof.
  split; [|split].
  - apply (proj1 (convertScalar_bigint_range
                    {["MARIADB_CHECK_NUMBER_RANGE" := "true"]}
                    (-9007199254740992))); [reflexivity | reflexivity].
  - apply (proj1 (proj2 (convertScalar_bigint_range
                    {["MARIADB_CHECK_NUMBER_RANGE" := "true"]}
                    9007199254740991))); [reflexivity | vm_compute; discriminate].
  - apply (proj2 (proj2 (convertScalar_bigint_range
                    {["MARIADB_CHECK_NUMBER_RANGE" := "false"]}
                    (-9007199254740992)))). vm_compute. discriminate.
Defined.

Example ex_toString : bigint_toString (-42) = "-42".
Proof. reflexivity. Qed.

(** Beyond 2^53 the coercion rounds: 2^53 + 1 becomes 2^53. *)
Example ex_number_lossy : Number 9007199254740993 = Number 9007199254740992.
Proof. vm_compute. reflexivity. Qed.

(** When the range check is off or the walk meets no unsafe bigint field,
    [normalizeRow] returns [coerceRow]. *)
Lemma normalizeRow_returns (env : Env) (row : value) :
  env !! "MARIADB_CHECK_NUMBER_RANGE" ≠ Some "true" ∨ unsafe_row row = false →
  normalizeRow env row = ok (coerceRow row).
Proof.
  pose proof (normalizeRow_cases env row) as H.
  intros [Hoff%env_is_true_false | Hsafe].
  - by rewrite Hoff in H.
  - by rewrite Hsafe, andb_false_r in H.
Qed.

(** [normalizeRow] returns nothing but [coerceRow]. *)
Lemma normalizeRow_returned (env : Env) (row row' : value) :
  normalizeRow env row = ok row' → row' = coerceRow row.
Proof.
  pose proof (normalizeRow_cases env row) as H. intros Hrow'.
  destruct (env_is_true env _ && unsafe_row row).
  - destruct H as [e He]. rewrite He in Hrow'. discriminate.
  - rewrite H in Hrow'. by inversion Hrow'.
Qed.

(** C8, as the code has it.  [normalizeRow] walks arrays nested to any
    depth; in every record it reaches through arrays alone it converts each
    field whose value is a bigint and leaves every other field value as it
    is, without entering it; an array element that is neither an array nor
    a record, a bigint included, is returned as it is.  Whenever the range
    check is off or the walk meets no unsafe bigint field the call returns
    that result, and it never returns anything else. *)
Theorem normalizeRow_walk (env : Env) (row : value) :
  (env !! "MARIADB_CHECK_NUMBER_RANGE" ≠ Some "true" ∨ unsafe_row row = false →
   normalizeRow env row = ok (coerceRow row))
  ∧ (∀ row', normalizeRow env row = ok row' → row' = coerceRow row).
Proof.
  split; [apply normalizeRow_returns | apply normalizeRow_returned].
Qed.

Lemma normalizeRow_walk_witness :
  normalizeRow ∅
    (VArray [VArray [VObject [("id", VBigInt 7); ("name", VString "a")]];
             VArray [VObject [("id", VBigInt 9007199254740993)]]]) =
  ok (VArray [VArray [VObject [("id", VNumber (Number 7));
                               ("name", VString "a")]];
              VArray [VObject [("id", VNumber (Number 9007199254740992))]]]).
Proof.
  rewrite (proj1 (normalizeRow_walk ∅ _)).
  - vm_compute. reflexivity.
  - left. vm_compute. discriminate.
Defined.

(** C8, as stated, fails: a bigint that is an element of an array (a row
    given as an ordered sequence) and a bigint inside a record that is
    itself a field value both come back as bigints. *)
Lemma normalizeRow_leaves_bigint :
  normalizeRow ∅ (VArray [VArray [VBigInt 5; VString "a"]]) =
  ok (VArray [VArray [VBigInt 5; VString "a"]])
  ∧ normalizeRow ∅ (VArray [VObject [("o", VObject [("n", VBigInt 5)])]]) =
    ok (VArray [VObject [("o", VObject [("n", VBigInt 5)])]])
  ∧ has_bigint (VArray [VArray [VBigInt 5; VString "a"]]) = true.
Proof. repeat split. Qed.

(** ** Configuration *)

Section Properties.

Variable parseInt : string → number.
Variable isAlloowedQuery : Env → string → bool.

Set Default Proof Using "Type".

Lemma required_missing env k msg :
  missing env k → required (env !! k) msg = throw (Error msg).
Proof. by intros [-> | ->]. Qed.

Lemma required_present env k s msg :
  present env k s → required (env !! k) msg = ok s.
Proof. intros [-> Hs]. simpl. by destruct s. Qed.

Lemma missing_or_present env k :
  missing env k ∨ ∃ s, present env k s.
Proof.
  unfold missing, present. destruct (env !! k) as [s|]; [|left; by left].
  destruct (decide (s = "")) as [->|Hs]; [left; by right|].
  right. by exists s.
Qed.

(** When a required variable is missing, [getConfigFromEnv] throws, and
    the message names the first of host, user, password that is. *)
Lemma getConfigFromEnv_missing env :
  missing env "MARIADB_HOST" ∨ missing env "MARIADB_USER"
    ∨ missing env "MARIADB_PASSWORD" →
  ∃ k, In k ["MARIADB_HOST"; "MARIADB_USER"; "MARIADB_PASSWORD"]
       ∧ missing env k
       ∧ getConfigFromEnv parseInt env = throw (Error (required_message k)).
Proof.
  clear isAlloowedQuery. intros Hmiss. unfold getConfigFromEnv.
  destruct (missing_or_present env "MARIADB_HOST") as [Hh|[h Hh]].
  { exists "MARIADB_HOST". split; [simpl; tauto|]. split; [done|].
    by rewrite (required_missing _ _ _ Hh). }
  rewrite (required_present _ _ _ _ Hh). simpl.
  destruct (missing_or_present env "MARIADB_USER") as [Hu|[u Hu]].
  { exists "MARIADB_USER". split; [simpl; tauto|]. split; [done|].
    by rewrite (required_missing _ _ _ Hu). }
  rewrite (required_present _ _ _ _ Hu). simpl.
  destruct (missing_or_present env "MARIADB_PASSWORD") as [Hp|[p Hp]].
  { exists "MARIADB_PASSWORD". split; [simpl; tauto|]. split; [done|].
    by rewrite (required_missing _ _ _ Hp). }
  exfalso. destruct Hh as [Hh ?], Hu as [Hu ?], Hp as [Hp ?].
  destruct Hmiss as [[?|?]|[[?|?]|[?|?]]]; congruence.
Qed.

Lemma createConnectionPool_config_error o env m e :
  getConfigFromEnv parseInt env = throw e →
  createConnectionPool parseInt o env m = (throw e, m).
Proof.
  intros He. unfold createConnectionPool, bind, lift. by rewrite He.
Qed.

Lemma executeQuery_config_error o env sql params database m e :
  pool m = None →
  getConfigFromEnv parseInt env = throw e →
  executeQuery parseInt isAlloowedQuery o env sql params database m
  = (throw e, m).
Proof.
  intros Hpool He. unfold executeQuery, bind, get_pool. rewrite Hpool.
  simpl. unfold bind.
  by rewrite (createConnectionPool_config_error _ _ _ _ He).
Qed.

(** C9.  If host, user or password is absent or empty, resolution throws
    the error naming the first such variable, and neither
    [createConnectionPool] nor an [executeQuery] that has no pool yet
    calls the driver or changes the module state.  If all three are
    non-empty, resolution succeeds: the three values are taken over, the
    port is 3306 when [MARIADB_PORT] is absent or empty and the parsed
    string otherwise, and each flag is true exactly when its variable
    equals ["true"]. *)
Theorem getConfigFromEnv_required (env : Env) :
  (missing env "MARIADB_HOST" ∨ missing env "MARIADB_USER"
     ∨ missing env "MARIADB_PASSWORD" →
   ∃ k, In k ["MARIADB_HOST"; "MARIADB_USER"; "MARIADB_PASSWORD"]
     ∧ missing env k
     ∧ getConfigFromEnv parseInt env = throw (Error (required_message k))
     ∧ (∀ o m, createConnectionPool parseInt o env m
               = (throw (Error (required_message k)), m))
     ∧ (∀ o sql params database m, pool m = None →
          executeQuery parseInt isAlloowedQuery o env sql params database m
          = (throw (Error (required_message k)), m)))
  ∧ (∀ h u p,
       present env "MARIADB_HOST" h → present env "MARIADB_USER" u →
       present env "MARIADB_PASSWORD" p →
       ∃ cfg, getConfigFromEnv parseInt env = ok cfg
         ∧ MariaDBConfig.host cfg = h
         ∧ MariaDBConfig.user cfg = u
         ∧ MariaDBConfig.password cfg = p
         ∧ MariaDBConfig.database cfg = env !! "MARIADB_DATABASE"
         ∧ (missing env "MARIADB_PORT" →
            MariaDBConfig.port cfg = Number 3306)
         ∧ (∀ s, present env "MARIADB_PORT" s →
            MariaDBConfig.port cfg = parseInt s)
         ∧ (MariaDBConfig.allow_insert cfg = true
            ↔ env !! "MARIADB_ALLOW_INSERT" = Some "true")
         ∧ (MariaDBConfig.allow_update cfg = true
            ↔ env !! "MARIADB_ALLOW_UPDATE" = Some "true")
         ∧ (MariaDBConfig.allow_delete cfg = true
            ↔ env !! "MARIADB_ALLOW_DELETE" = Some "true")
         ∧ (MariaDBConfig.big_int_as_number cfg = true
            ↔ env !! "MARIADB_BIG_INT_AS_NUMBER" = Some "true")
         ∧ (MariaDBConfig.decimal_as_number cfg = true
            ↔ env !! "MARIADB_DECIMAL_AS_NUMBER" = Some "true")
         ∧ (MariaDBConfig.check_number_range cfg = true
            ↔ env !! "MARIADB_CHECK_NUMBER_RANGE" = Some "true")).
Proof.
  split.
  - intros Hmiss.
    destruct (getConfigFromEnv_missing env Hmiss) as (k & Hk & Hmk & He).
    exists k. repeat split; try done.
    + intros o m. by apply createConnectionPool_config_error.
    + intros o sql params database m Hpool.
      by apply executeQuery_config_error.
  - intros h u p Hh Hu Hp. unfold getConfigFromEnv.
    rewrite (required_present _ _ _ _ Hh), (required_present _ _ _ _ Hu),
      (required_present _ _ _ _ Hp). simpl.
    eexists. split; [reflexivity|]. simpl.
    repeat split; try (by apply env_is_true_spec).
    + by intros [-> | ->].
    + intros s [-> Hs]. by destruct s.
Qed.

(** C10.  [createConnectionPool] resolves the configuration before it
    looks at [pool]: while host, user or password is missing the call
    throws the configuration error even if a pool is installed, and the
    installed pool is neither returned nor replaced, the module state
    and the driver being exactly as before. *)
Theorem createConnectionPool_config_first (env : Env) (o : Outcomes)
    (m : Machine) (p : Pool) :
  missing env "MARIADB_HOST" ∨ missing env "MARIADB_USER"
    ∨ missing env "MARIADB_PASSWORD" →
  pool m = Some p →
  ∃ k, In k ["MARIADB_HOST"; "MARIADB_USER"; "MARIADB_PASSWORD"]
    ∧ missing env k
    ∧ fst (createConnectionPool parseInt o env m)
      = throw (Error (required_message k))
    ∧ snd (createConnectionPool parseInt o env m) = m
    ∧ pool (snd (createConnectionPool parseInt o env m)) = Some p.
Proof.
  intros Hmiss Hpool.
  destruct (getConfigFromEnv_missing env Hmiss) as (k & Hk & Hmk & He).
  exists k. rewrite (createConnectionPool_config_error o _ m _ He).
  by repeat split.
Qed.

(** Pool set-up with no pool installed, a configuration that resolves
    and a driver that constructs. *)
Lemma createConnectionPool_fresh o env m cfg :
  pool m = None → getConfigFromEnv parseInt env = ok cfg →
  createPool_throws o = None →
  ∃ p m', createConnectionPool parseInt o env m = (ok p, m')
    ∧ pool m' = Some p
    ∧ connection m' = connection m
    ∧ pool_id p = next_id (driver m)
    ∧ pool_config p
      = PoolConfig.Build
          (MariaDBConfig.host cfg) (MariaDBConfig.port cfg)
          (MariaDBConfig.user cfg) (MariaDBConfig.password cfg)
          (MariaDBConfig.database cfg) 2 DEFAULT_TIMEOUT
          (MariaDBConfig.big_int_as_number cfg)
          (MariaDBConfig.decimal_as_number cfg)
          (MariaDBConfig.check_number_range cfg)
    ∧ new_calls m m' = [CreatePool (pool_config p)].
Proof.
  destruct m as [pl cn [nid ls en cs]]. simpl.
  intros -> Hcfg Hmake.
  unfold createConnectionPool, bind, lift, new_calls. rewrite Hcfg. simpl.
  unfold drv_createPool, on_driver, bind, set_pool, ret. simpl.
  rewrite Hmake. simpl. do 2 eexists. split; [reflexivity|]. simpl.
  repeat split. by rewrite drop_app_length.
Qed.

(** C7, as the code has it.  With a pool installed and a configuration
    that resolves, [createConnectionPool] returns that pool and changes
    nothing; hence a second call under the same environment returns the
    pool of the first and constructs nothing.  With no pool installed, a
    resolving configuration and a driver that constructs, the pool made
    has connectTimeout 10000 ms and connectionLimit 2 and is installed;
    if construction throws, no pool is installed. *)
Theorem createConnectionPool_idempotent (env : Env) (o : Outcomes)
    (m : Machine) :
  (∀ p cfg, pool m = Some p → getConfigFromEnv parseInt env = ok cfg →
     createConnectionPool parseInt o env m = (ok p, m))
  ∧ (∀ p m', createConnectionPool parseInt o env m = (ok p, m') →
       ∀ o', createConnectionPool parseInt o' env m' = (ok p, m'))
  ∧ (∀ cfg, pool m = None → getConfigFromEnv parseInt env = ok cfg →
       createPool_throws o = None →
       ∃ p m', createConnectionPool parseInt o env m = (ok p, m')
         ∧ pool m' = Some p
         ∧ connection m' = connection m
         ∧ pool_id p = next_id (driver m)
         ∧ PoolConfig.connectTimeout (pool_config p) = 10000%Z
         ∧ PoolConfig.connectionLimit (pool_config p) = 2%Z
         ∧ PoolConfig.host (pool_config p) = MariaDBConfig.host cfg
         ∧ PoolConfig.port (pool_config p) = MariaDBConfig.port cfg
         ∧ PoolConfig.user (pool_config p) = MariaDBConfig.user cfg
         ∧ PoolConfig.password (pool_config p) = MariaDBConfig.password cfg
         ∧ PoolConfig.database (pool_config p) = MariaDBConfig.database cfg
         ∧ new_calls m m' = [CreatePool (pool_config p)])
  ∧ (∀ cfg e, pool m = None → getConfigFromEnv parseInt env = ok cfg →
       createPool_throws o = Some e →
       ∃ m', createConnectionPool parseInt o env m = (throw e, m')
         ∧ pool m' = None).
Proof.
  destruct m as [pl cn [nid ls en cs]].
  assert (∀ p cfg, pl = Some p → getConfigFromEnv parseInt env = ok cfg →
    ∀ o', createConnectionPool parseInt o' env
            {| pool := pl; connection := cn;
               driver := {| next_id := nid; leased := ls; ended := en;
                            calls := cs |} |}
          = (ok p, {| pool := pl; connection := cn;
                      driver := {| next_id := nid; leased := ls;
                                   ended := en; calls := cs |} |}))
    as Hinstalled.
  { intros p cfg -> Hcfg o'.
    unfold createConnectionPool, bind, lift. by rewrite Hcfg. }
  split; [|split; [|split]].
  - intros p cfg Hp Hcfg. simpl in Hp. by apply (Hinstalled p cfg).
  - intros p m' Hrun o'.
    unfold createConnectionPool, bind, lift in Hrun.
    destruct (getConfigFromEnv parseInt env) as [e|cfg] eqn:Hcfg;
      [discriminate|].
    simpl in Hrun. destruct pl as [p0|].
    + injection Hrun as <- <-. by apply (Hinstalled p0 cfg).
    + unfold drv_createPool, on_driver, bind, set_pool, ret in Hrun.
      simpl in Hrun.
      destruct (createPool_throws o); [discriminate|].
      injection Hrun as <- <-.
      unfold createConnectionPool, bind, lift. by rewrite Hcfg.
  - intros cfg Hp Hcfg Hmake.
    destruct (createConnectionPool_fresh o env _ cfg Hp Hcfg Hmake)
      as (p & m' & Hrun & Hpool & Hcn & Hid & Hconfig & Hcalls).
    exists p, m'. rewrite Hconfig in *. by repeat split.
  - intros cfg e Hp Hcfg Hthrows. simpl in Hp. subst pl.
    unfold createConnectionPool, bind, lift. rewrite Hcfg. simpl.
    unfold drv_createPool, on_driver, bind, set_pool, ret. simpl.
    rewrite Hthrows. simpl. by eexists.
Qed.

(** ** The life cycle of the lease *)

Lemma filter_known (ls : list PoolConnection) (n k : nat) :
  Forall (λ c, conn_id c < n)%nat ls → (n ≤ k)%nat →
  filter (λ c', conn_id c' ≠ k) ls = ls.
Proof.
  intros Hall Hle. induction Hall as [|c ls Hc _ IH]; [done|].
  rewrite filter_cons. rewrite IH.
  destruct (decide (conn_id c ≠ k)) as [|Heq]; [done|].
  exfalso. apply Heq. lia.
Qed.

Ltac step_exec :=
  unfold executeQuery_body, executeQuery_finally, try_finally, bind, ret,
    raise, lift, get_pool, get_connection, set_pool, set_connection,
    drv_getConnection, drv_query, drv_release, on_driver, record_call;
  simpl.

(** The [try] / [finally] part started without a lease: whatever
    happens, it ends without a lease, with the same leases outstanding
    and the same pool. *)
Lemma try_finally_releases o env sql params database p m :
  connection m = None → leases_known m →
  let m' := snd (try_finally
                   (executeQuery_body isAlloowedQuery o env sql params
                      database p)
                   executeQuery_finally m) in
  connection m' = None
  ∧ leased (driver m') = leased (driver m)
  ∧ pool m' = pool m
  ∧ ended (driver m') = ended (driver m)
  ∧ (next_id (driver m) ≤ next_id (driver m'))%nat.
Proof.
  destruct m as [pl cn [nid ls en cs]]. unfold leases_known. simpl.
  intros -> Hknown. step_exec.
  destruct (getConnection_rejects o); simpl; [by repeat split|].
  assert (filter (λ c' : PoolConnection, conn_id c' ≠ nid)
            ({| conn_id := nid; conn_pool := pool_id p |} :: ls) = ls)
    as Hrelease.
  { rewrite filter_cons. simpl.
    destruct (decide (nid ≠ nid)) as [|_]; [done|].
    by apply (filter_known ls nid nid). }
  repeat (case_match; simpl); simplify_eq/=;
    rewrite ?Hrelease; repeat split; lia.
Qed.

Lemma known_weaken (ls : list PoolConnection) (n n' : nat) :
  (n ≤ n')%nat →
  Forall (λ c, conn_id c < n)%nat ls → Forall (λ c, conn_id c < n')%nat ls.
Proof.
  intros Hle Hall. eapply Forall_impl; [exact Hall|].
  intros c Hc. simpl in *. lia.
Qed.

(** [executeQuery], one layer down: pool set-up, then the guarded
    part. *)
Lemma executeQuery_unfold o env sql params database m :
  executeQuery parseInt isAlloowedQuery o env sql params database m =
  match pool m with
  | Some p =>
      try_finally
        (executeQuery_body isAlloowedQuery o env sql params database p)
        executeQuery_finally m
  | None =>
      match createConnectionPool parseInt o env m with
      | (inl e, m1) => (inl e, m1)
      | (inr p, m1) =>
          try_finally
            (executeQuery_body isAlloowedQuery o env sql params database p)
            executeQuery_finally
            {| pool := Some p; connection := connection m1;
               driver := driver m1 |}
      end
  end.
Proof.
  unfold executeQuery, bind, get_pool, set_pool, ret. simpl.
  destruct (pool m); [done|].
  by destruct (createConnectionPool parseInt o env m) as [[e|p] m1].
Qed.

Lemma createConnectionPool_keeps_leases o env m :
  let m' := snd (createConnectionPool parseInt o env m) in
  connection m' = connection m
  ∧ leased (driver m') = leased (driver m)
  ∧ (next_id (driver m) ≤ next_id (driver m'))%nat.
Proof.
  destruct m as [pl cn [nid ls en cs]].
  unfold createConnectionPool, bind, lift, get_pool, drv_createPool,
    on_driver, set_pool, ret, record_call.
  destruct (getConfigFromEnv parseInt env); simpl; [by repeat split|].
  destruct pl; simpl; [by repeat split|].
  destruct (createPool_throws o); simpl; repeat split; lia.
Qed.

Lemma endConnection_keeps_leases answer m :
  let m' := snd (endConnection answer m) in
  connection m' = connection m
  ∧ leased (driver m') = leased (driver m)
  ∧ next_id (driver m') = next_id (driver m)
  ∧ pool m' = pool m.
Proof.
  destruct m as [pl cn [nid ls en cs]].
  unfold endConnection, bind, get_pool, drv_end, on_driver, ret. simpl.
  by destruct pl.
Qed.

(** An invocation started without a lease ends without one and leaves
    the outstanding leases as they were. *)
Lemma executeQuery_releases o env sql params database m :
  connection m = None → leases_known m →
  let m' := snd (executeQuery parseInt isAlloowedQuery o env sql params
                   database m) in
  connection m' = None
  ∧ leased (driver m') = leased (driver m)
  ∧ leases_known m'.
Proof.
  intros Hcn Hknown m'. subst m'. rewrite executeQuery_unfold.
  assert (∀ p m1, connection m1 = connection m →
            leased (driver m1) = leased (driver m) →
            (next_id (driver m) ≤ next_id (driver m1))%nat →
            let m' := snd (try_finally
              (executeQuery_body isAlloowedQuery o env sql params database p)
              executeQuery_finally m1) in
            connection m' = None
            ∧ leased (driver m') = leased (driver m)
            ∧ leases_known m') as Hguarded.
  { intros p m1 Hc1 Hl1 Hn1.
    assert (leases_known m1) as Hknown1.
    { unfold leases_known. rewrite Hl1. revert Hknown.
      by apply known_weaken. }
    destruct (try_finally_releases o env sql params database p m1)
      as (Hc & Hl & _ & _ & Hn); [congruence|done|].
    simpl. repeat split; [done|congruence|].
    unfold leases_known. rewrite Hl. revert Hknown1.
    by apply known_weaken. }
  destruct (pool m) as [p|] eqn:Hpool.
  { by apply Hguarded. }
  destruct (createConnectionPool_keeps_leases o env m) as (Hc1 & Hl1 & Hn1).
  destruct (createConnectionPool parseInt o env m) as [[e|p] m1];
    simpl in *.
  - repeat split; [congruence|done|].
    unfold leases_known. rewrite Hl1. revert Hknown.
    by apply known_weaken.
  - by apply Hguarded.
Qed.

(** Between invocations no lease is held. *)
Lemma reachable_idle m :
  reachable parseInt isAlloowedQuery m →
  connection m = None ∧ leases_known m.
Proof.
  induction 1 as [|o env m _ [Hc Hk]|o env sql params database m _ [Hc Hk]
                  |answer m _ [Hc Hk]].
  - split; [done|]. by apply Forall_nil.
  - destruct (createConnectionPool_keeps_leases o env m) as (Hc' & Hl & Hn).
    split; [congruence|]. unfold leases_known. rewrite Hl.
    revert Hk. by apply known_weaken.
  - by destruct (executeQuery_releases o env sql params database m Hc Hk)
      as (? & _ & ?).
  - destruct (endConnection_keeps_leases answer m) as (Hc' & Hl & Hn & _).
    split; [congruence|]. unfold leases_known. by rewrite Hl, Hn.
Qed.

(** C2.  Whatever the outcome of an invocation of [executeQuery]
    (success, rejected statement, failed database switch, failed or timed
    out query, failed normalisation, failed acquisition, failed pool
    set-up), when it returns the held-lease variable is cleared and the
    leases outstanding are those that were outstanding before the call. *)
Theorem executeQuery_no_leak (o : Outcomes) (env : Env) (sql : string)
    (params : list value) (database : option string) (m : Machine) :
  reachable parseInt isAlloowedQuery m →
  let m' := snd (executeQuery parseInt isAlloowedQuery o env sql params
                   database m) in
  connection m' = None
  ∧ leased (driver m') = leased (driver m)
  ∧ outstanding m' = outstanding m.
Proof.
  intros [Hc Hk]%reachable_idle.
  destruct (executeQuery_releases o env sql params database m Hc Hk)
    as (Hc' & Hl & _).
  repeat split; [done|done|]. unfold outstanding. simpl. by rewrite Hl.
Qed.

(** ** The calls an invocation makes *)

Lemma try_finally_calls o env sql params database p m :
  let m' := snd (try_finally
                   (executeQuery_body isAlloowedQuery o env sql params
                      database p)
                   executeQuery_finally m) in
  calls (driver m')
  = (calls (driver m) ++ guarded_calls isAlloowedQuery o env sql params database p m)%list
  ∧ pool m' = pool m
  ∧ ended (driver m') = ended (driver m)
  ∧ (connection m = None → connection m' = None).
Proof.
  destruct m as [pl cn [nid ls en cs]].
  unfold guarded_calls, reaches_validator, use_calls, lease_used. simpl.
  step_exec.
  destruct cn as [c|]; simpl;
    [|destruct (getConnection_rejects o); simpl; [by repeat split|]];
    (destruct database as [[|a db]|]; simpl;
     destruct (use_rejects o); simpl;
     destruct (isAlloowedQuery env sql); simpl;
     repeat (case_match; simpl); simplify_eq/=;
     rewrite <- ?(assoc_L (++)); simpl; by repeat split).
Qed.

(** The guarded part always ends with the lease variable cleared. *)
Lemma try_finally_clears o env sql params database p m :
  connection (snd (try_finally
                     (executeQuery_body isAlloowedQuery o env sql params
                        database p)
                     executeQuery_finally m)) = None.
Proof.
  destruct m as [pl cn [nid ls en cs]]. step_exec.
  destruct cn as [c|]; simpl;
    [|destruct (getConnection_rejects o); simpl; [done|]];
    repeat (case_match; simpl); by simplify_eq/=.
Qed.

(** What the guarded part returns. *)
Lemma try_finally_result o env sql params database p m :
  fst (try_finally
         (executeQuery_body isAlloowedQuery o env sql params database p)
         executeQuery_finally m)
  = match connection m, getConnection_rejects o with
    | None, Some e => throw e
    | _, _ =>
        match use_rejects o with
        | Some e =>
            if truthy database then throw e
            else if isAlloowedQuery env sql
            then
              let! result := query_outcome o in
              let! normalizedRows :=
                normalizeRow env (limitRows (dr_value result)) in
              let! _ := JSON_stringify_check params in
              ok {| rows := normalizedRows;
                    fields := if nullish (dr_meta result) then VArray []
                              else dr_meta result |}
            else throw (Error "Query not allowed")
        | None =>
            if isAlloowedQuery env sql
            then
              let! result := query_outcome o in
              let! normalizedRows :=
                normalizeRow env (limitRows (dr_value result)) in
              let! _ := JSON_stringify_check params in
              ok {| rows := normalizedRows;
                    fields := if nullish (dr_meta result) then VArray []
                              else dr_meta result |}
            else throw (Error "Query not allowed")
        end
    end.
Proof.
  destruct m as [pl cn [nid ls en cs]]. step_exec.
  destruct cn as [c|]; simpl;
    [|destruct (getConnection_rejects o); simpl; [done|]];
    (destruct database as [[|a db]|]; simpl;
     destruct (use_rejects o); simpl;
     destruct (isAlloowedQuery env sql); simpl; try done;
     destruct (query_outcome o) as [?|result]; simpl; try done;
     destruct (normalizeRow env (limitRows (dr_value result))); simpl;
     try done;
     by destruct (JSON_stringify_check params) as [?|[]]).
Qed.

Lemma new_calls_app m m' extra :
  calls (driver m') = (calls (driver m) ++ extra)%list →
  new_calls m m' = extra.
Proof. intros H. unfold new_calls. by rewrite H, drop_app_length. Qed.

(** Pool set-up calls the driver at most once, to construct. *)
Lemma createConnectionPool_calls o env m :
  ∃ pre,
    calls (driver (snd (createConnectionPool parseInt o env m)))
    = (calls (driver m) ++ pre)%list
    ∧ Forall (λ call, is_CreatePool call = true) pre
    ∧ (pool m ≠ None → pre = [])
    ∧ connection (snd (createConnectionPool parseInt o env m))
      = connection m
    ∧ ended (driver (snd (createConnectionPool parseInt o env m)))
      = ended (driver m).
Proof.
  destruct m as [pl cn [nid ls en cs]].
  unfold createConnectionPool, bind, lift, get_pool, drv_createPool,
    on_driver, set_pool, ret, record_call.
  destruct (getConfigFromEnv parseInt env); simpl.
  { exists []. by rewrite (right_id_L [] (++)). }
  destruct pl; simpl.
  { exists []. by rewrite (right_id_L [] (++)). }
  destruct (createPool_throws o); simpl;
    eexists [_]; repeat split; try done; by repeat constructor.
Qed.


Lemma constructions_app m m' extra :
  calls (driver m') = (calls (driver m) ++ extra)%list →
  constructions m'
  = (constructions m
     + length (filter (λ c, is_CreatePool c = true) extra))%nat.
Proof.
  intros H. unfold constructions. by rewrite H, filter_app, length_app.
Qed.

Lemma guarded_calls_no_construction o env sql params database p m :
  filter (λ c, is_CreatePool c = true)
    (guarded_calls isAlloowedQuery o env sql params database p m) = [].
Proof.
  unfold guarded_calls, use_calls.
  by destruct (reaches_validator o database m && isAlloowedQuery env sql),
    (connection m), (getConnection_rejects o), database as [[|a db]|].
Qed.



(** ** The row limit *)

Lemma limitRows_long elems :
  (DEFAULT_ROW_LIMIT < length elems)%nat →
  limitRows (VArray elems) = VArray (firstn DEFAULT_ROW_LIMIT elems).
Proof.
  intros Hlong. unfold limitRows.
  by destruct (Nat.ltb_spec DEFAULT_ROW_LIMIT (length elems)); [|lia].
Qed.

Lemma limitRows_short elems :
  (length elems ≤ DEFAULT_ROW_LIMIT)%nat →
  limitRows (VArray elems) = VArray elems.
Proof.
  intros Hshort. unfold limitRows.
  by destruct (Nat.ltb_spec DEFAULT_ROW_LIMIT (length elems)); [lia|].
Qed.

(** A successful invocation returns the normalised, limited value of the
    query and its metadata. *)
Lemma executeQuery_ok_inv o env sql params database m res :
  fst (executeQuery parseInt isAlloowedQuery o env sql params database m)
  = ok res →
  ∃ result,
    query_outcome o = ok result
    ∧ normalizeRow env (limitRows (dr_value result)) = ok (rows res)
    ∧ fields res = (if nullish (dr_meta result) then VArray []
                    else dr_meta result).
Proof.
  rewrite executeQuery_unfold.
  assert (∀ p m1,
    fst (try_finally
           (executeQuery_body isAlloowedQuery o env sql params database p)
           executeQuery_finally m1) = ok res →
    ∃ result,
      query_outcome o = ok result
      ∧ normalizeRow env (limitRows (dr_value result)) = ok (rows res)
      ∧ fields res = (if nullish (dr_meta result) then VArray []
                      else dr_meta result)) as Hguarded.
  { intros p m1. rewrite try_finally_result.
    destruct (connection m1), (getConnection_rejects o), (use_rejects o),
      (truthy database), (isAlloowedQuery env sql); try done;
      (destruct (query_outcome o) as [?|result]; simpl; [done|];
       destruct (normalizeRow env (limitRows (dr_value result))) eqn:Hnorm;
       simpl; [done|];
       destruct (JSON_stringify_check params); simpl; [done|];
       intros [= <-]; by exists result). }
  destruct (pool m) as [p|]; [by apply Hguarded|].
  destruct (createConnectionPool parseInt o env m) as [[e|p] m1];
    [done|by apply Hguarded].
Qed.

(** The value of the query matters only through its limited rows and
    its metadata. *)
Lemma executeQuery_limited o env sql params database m v v' meta :
  limitRows v = limitRows v' →
  executeQuery parseInt isAlloowedQuery (with_rows o v meta) env sql params
    database m
  = executeQuery parseInt isAlloowedQuery (with_rows o v' meta) env sql
      params database m.
Proof.
  intros Hsame. rewrite !executeQuery_unfold.
  assert (∀ p m1,
    try_finally
      (executeQuery_body isAlloowedQuery (with_rows o v meta) env sql
         params database p) executeQuery_finally m1
    = try_finally
        (executeQuery_body isAlloowedQuery (with_rows o v' meta) env sql
           params database p) executeQuery_finally m1) as Hguarded.
  { intros p [pl cn [nid ls en cs]]. step_exec. rewrite Hsame.
    reflexivity. }
  destruct (pool m) as [p|]; [by apply Hguarded|].
  assert (createConnectionPool parseInt (with_rows o v meta) env m
          = createConnectionPool parseInt (with_rows o v' meta) env m)
    as -> by done.
  destruct (createConnectionPool parseInt _ env m) as [[e|p] m1];
    [done|by apply Hguarded].
Qed.

Lemma with_rows_id o v meta :
  query_outcome o = ok {| dr_value := v; dr_meta := meta |} →
  with_rows o v meta = o.
Proof. destruct o. simpl. by intros ->. Qed.

(** The row limit on a query that resolves to the rows themselves, as the
    connector does without [metaAsArray]: for an array of more than 1000
    rows a successful [executeQuery] returns exactly 1000 rows, the i-th
    being the normalised i-th row of the result set, together with the
    metadata; the whole outcome of the call equals the outcome for a
    result set that consists of those 1000 rows only; and the call is
    successful whenever pool set-up, acquisition, the optional database
    switch and the validator let it through, the rows kept normalise and
    the parameters can be logged. *)
Theorem executeQuery_row_limit (o : Outcomes) (env : Env) (sql : string)
    (params : list value) (database : option string) (m : Machine)
    (elems : list value) (meta : value) :
  query_outcome o = ok {| dr_value := VArray elems; dr_meta := meta |} →
  (DEFAULT_ROW_LIMIT < length elems)%nat →
  let run := executeQuery parseInt isAlloowedQuery o env sql params
               database m in
  let kept := map coerceRow (firstn DEFAULT_ROW_LIMIT elems) in
  let expected :=
    {| rows := VArray kept;
       fields := if nullish meta then VArray [] else meta |} in
  (∀ res, fst run = ok res → res = expected)
  ∧ length kept = 1000%nat
  ∧ (∀ i, (i < 1000)%nat → kept !! i = coerceRow <$> elems !! i)
  ∧ run = executeQuery parseInt isAlloowedQuery
            (with_rows o (VArray (firstn DEFAULT_ROW_LIMIT elems)) meta)
            env sql params database m
  ∧ (pool m ≠ None
     ∨ ((∃ cfg, getConfigFromEnv parseInt env = ok cfg)
        ∧ createPool_throws o = None) →
     reaches_validator o database m = true →
     isAlloowedQuery env sql = true →
     env !! "MARIADB_CHECK_NUMBER_RANGE" ≠ Some "true"
       ∨ unsafe_row (VArray (firstn DEFAULT_ROW_LIMIT elems)) = false →
     existsb has_bigint params = false →
     fst run = ok expected).
Proof.
  intros Hquery Hlong run kept expected.
  split; [|split; [|split; [|split]]].
  - intros res Hres.
    destruct (executeQuery_ok_inv _ _ _ _ _ _ _ Hres)
      as (result & Hresult & Hrows & Hfields).
    rewrite Hquery in Hresult. injection Hresult as <-.
    cbn [dr_value dr_meta] in Hrows, Hfields.
    rewrite limitRows_long in Hrows by done.
    apply normalizeRow_returned in Hrows.
    destruct res as [r f]. simpl in *. by subst.
  - subst kept. rewrite length_map, length_take_le; [done|].
    unfold DEFAULT_ROW_LIMIT in *. lia.
  - intros i Hi. subst kept.
    by rewrite list_lookup_fmap, lookup_take_lt.
  - subst run. rewrite <- (with_rows_id o _ _ Hquery) at 1.
    apply executeQuery_limited.
    rewrite limitRows_long by done. rewrite limitRows_short; [done|].
    rewrite length_take. lia.
  - intros Hpool Hreach Hallowed Hsafe Hparams. subst run.
    rewrite executeQuery_unfold.
    assert (∀ p m1, connection m1 = connection m →
      fst (try_finally
             (executeQuery_body isAlloowedQuery o env sql params database p)
             executeQuery_finally m1) = ok expected) as Hguarded.
    { intros p m1 Hcn. rewrite try_finally_result, Hcn.
      unfold reaches_validator in Hreach.
      rewrite Hquery, Hallowed. unfold ok. cbn [rbind dr_value dr_meta].
      rewrite limitRows_long by done.
      rewrite (normalizeRow_returns env _ Hsafe).
      unfold JSON_stringify_check. rewrite Hparams.
      unfold ok. cbn [rbind dr_value dr_meta].
      by destruct (connection m), (getConnection_rejects o),
        (use_rejects o), (truthy database). }
    destruct (pool m) as [p|] eqn:Hp; [by apply Hguarded|].
    destruct Hpool as [|[[cfg Hcfg] Hmake]]; [done|].
    destruct (createConnectionPool_fresh o env m cfg Hp Hcfg Hmake)
      as (p & m1 & -> & _ & Hcn & _).
    by apply Hguarded.
Qed.

End Properties.

(** * The module run on concrete inputs *)

Example ex_policy_delete : isAllowed env_ok "  /* x */ delete from t" = false.
Proof. vm_compute. reflexivity. Qed.

Example ex_policy_select : isAllowed env_ok "-- c
 SeLeCt 1" = true.
Proof. vm_compute. reflexivity. Qed.

Example ex_parseInt : parseInt10 " 3307x" = Number 3307.
Proof. vm_compute. reflexivity. Qed.

Example ex_after_select :
  after_select
  = {| pool := Some pool0; connection := None;
       driver := {| next_id := 2; leased := []; ended := [];
                    calls := [CreatePool pool_config0; GetConnection pool0;
                              statement lease1 "SELECT 1";
                              Release lease1] |} |}.
Proof. vm_compute. reflexivity. Qed.

(** C1, as stated, fails: the rejected [DELETE] is answered with the
    validation error only after a pool was constructed, a lease checked out
    and the database-switch statement sent on it. *)
Lemma executeQuery_rejected_after_checkout :
  let run := run_executeQuery (answers VNull) env_ok "DELETE FROM t" []
               (Some "shop") initial in
  isAllowed env_ok "DELETE FROM t" = false
  ∧ fst run = throw (Error "Query not allowed")
  ∧ calls (driver (snd run))
    = [CreatePool pool_config0; GetConnection pool0;
       Query lease1 (QSql "USE `shop`") None; Release lease1]
  ∧ checkouts (snd run) = 1%nat
  ∧ checkouts initial = 0%nat.
Proof. vm_compute. by repeat split. Qed.

Lemma executeQuery_no_leak_witness :
  let m' := snd (run_executeQuery query_fails env_ok "SELECT 1" [] None
                   after_select) in
  connection m' = None
  ∧ leased (driver m') = leased (driver after_select)
  ∧ outstanding m' = outstanding after_select.
Proof.
  apply (executeQuery_no_leak parseInt10 isAllowed query_fails env_ok
           "SELECT 1" [] None after_select).
  apply reachable_executeQuery, reachable_initial.
Defined.

(** Two invocations one after the other: the first has released and
    cleared its lease when it returns, so the second finds none held and
    checks out a new one. *)
Example ex_second_checkout :
  let m2 := snd (run_executeQuery (answers (VArray [])) env_ok "SELECT 2" []
                   None after_select) in
  connection after_select = None
  ∧ calls (driver after_select)
    = [CreatePool pool_config0; GetConnection pool0;
       statement lease1 "SELECT 1"; Release lease1]
  ∧ new_calls after_select m2
    = [GetConnection pool0; statement lease2 "SELECT 2"; Release lease2]
  ∧ checkouts after_select = 1%nat
  ∧ checkouts m2 = 2%nat
  ∧ lease1 ≠ lease2.
Proof. vm_compute. by repeat split. Qed.

Example ex_lease_held_calls :
  new_calls lease_held
    (snd (run_executeQuery (answers (VArray [])) env_ok "SELECT 1" []
            (Some "shop") lease_held))
  = [Query lease1 (QSql "USE `shop`") None; statement lease1 "SELECT 1";
     Release lease1].
Proof. vm_compute. reflexivity. Qed.



(** C7, as stated, fails: with a pool installed and the host variable gone
    from the environment, [createConnectionPool] throws instead of
    returning the pool. *)
Lemma createConnectionPool_installed_throws :
  pool after_select = Some pool0
  ∧ run_createConnectionPool (answers VNull) ∅ after_select
    = (throw (Error "MARIADB_HOST environment variable is required"),
       after_select).
Proof. vm_compute. by repeat split. Qed.

Lemma createConnectionPool_idempotent_witness :
  run_createConnectionPool (answers VNull) env_ok initial
  = (ok pool0,
     {| pool := Some pool0; connection := None;
        driver := {| next_id := 1; leased := []; ended := [];
                     calls := [CreatePool pool_config0] |} |})
  ∧ run_createConnectionPool (answers VNull) env_ok
      (snd (run_createConnectionPool (answers VNull) env_ok initial))
    = (ok pool0, snd (run_createConnectionPool (answers VNull) env_ok initial))
  ∧ PoolConfig.connectTimeout (pool_config pool0) = 10000%Z
  ∧ PoolConfig.connectionLimit (pool_config pool0) = 2%Z.
Proof.
  assert (run_createConnectionPool (answers VNull) env_ok initial
          = (ok pool0,
             {| pool := Some pool0; connection := None;
                driver := {| next_id := 1; leased := []; ended := [];
                             calls := [CreatePool pool_config0] |} |}))
    as Hfirst by (vm_compute; reflexivity).
  split; [exact Hfirst|]. split; [|by split].
  rewrite Hfirst. simpl.
  exact (proj1 (proj2 (createConnectionPool_idempotent parseInt10 env_ok
                         (answers VNull) initial))
           pool0 _ Hfirst (answers VNull)).
Defined.

Lemma createConnectionPool_config_first_witness :
  ∃ k, In k ["MARIADB_HOST"; "MARIADB_USER"; "MARIADB_PASSWORD"]
    ∧ missing env_no_password k
    ∧ fst (createConnectionPool parseInt10 (answers VNull) env_no_password
             after_select)
      = throw (Error (required_message k))
    ∧ snd (createConnectionPool parseInt10 (answers VNull) env_no_password
             after_select) = after_select
    ∧ pool (snd (createConnectionPool parseInt10 (answers VNull)
                   env_no_password after_select)) = Some pool0.
Proof.
  apply (createConnectionPool_config_first parseInt10 env_no_password
           (answers VNull) after_select pool0).
  - right. right. left. reflexivity.
  - reflexivity.
Defined.

Example ex_config_first :
  createConnectionPool parseInt10 (answers VNull) env_no_password after_select
  = (throw (Error "MARIADB_PASSWORD environment variable is required"),
     after_select).
Proof. vm_compute. reflexivity. Qed.

Lemma getConfigFromEnv_required_witness :
  (∃ k, In k ["MARIADB_HOST"; "MARIADB_USER"; "MARIADB_PASSWORD"]
     ∧ missing env_no_password k
     ∧ getConfigFromEnv parseInt10 env_no_password
       = throw (Error (required_message k))
     ∧ (∀ o m, createConnectionPool parseInt10 o env_no_password m
               = (throw (Error (required_message k)), m))
     ∧ (∀ o sql params database m, pool m = None →
          executeQuery parseInt10 isAllowed o env_no_password sql params
            database m
          = (throw (Error (required_message k)), m)))
  ∧ (∃ cfg, getConfigFromEnv parseInt10 env_ok = ok cfg
       ∧ MariaDBConfig.host cfg = "db.local"
       ∧ MariaDBConfig.user cfg = "app"
       ∧ MariaDBConfig.password cfg = "secret"
       ∧ MariaDBConfig.database cfg = env_ok !! "MARIADB_DATABASE"
       ∧ (missing env_ok "MARIADB_PORT" →
          MariaDBConfig.port cfg = Number 3306)
       ∧ (∀ s, present env_ok "MARIADB_PORT" s →
          MariaDBConfig.port cfg = parseInt10 s)
       ∧ (MariaDBConfig.allow_insert cfg = true
          ↔ env_ok !! "MARIADB_ALLOW_INSERT" = Some "true")
       ∧ (MariaDBConfig.allow_update cfg = true
          ↔ env_ok !! "MARIADB_ALLOW_UPDATE" = Some "true")
       ∧ (MariaDBConfig.allow_delete cfg = true
          ↔ env_ok !! "MARIADB_ALLOW_DELETE" = Some "true")
       ∧ (MariaDBConfig.big_int_as_number cfg = true
          ↔ env_ok !! "MARIADB_BIG_INT_AS_NUMBER" = Some "true")
       ∧ (MariaDBConfig.decimal_as_number cfg = true
          ↔ env_ok !! "MARIADB_DECIMAL_AS_NUMBER" = Some "true")
       ∧ (MariaDBConfig.check_number_range cfg = true
          ↔ env_ok !! "MARIADB_CHECK_NUMBER_RANGE" = Some "true")).
Proof.
  split.
  - apply (proj1 (getConfigFromEnv_required parseInt10 isAllowed
                    env_no_password)).
    right. right. left. reflexivity.
  - apply (proj2 (getConfigFromEnv_required parseInt10 isAllowed env_ok)).
    + split; [reflexivity | discriminate].
    + split; [reflexivity | discriminate].
    + split; [reflexivity | discriminate].
Defined.

Example ex_config :
  getConfigFromEnv parseInt10 (<["MARIADB_PORT" := "3307"]>
                                 (<["MARIADB_ALLOW_DELETE" := "TRUE"]> env_ok))
  = ok (MariaDBConfig.Build "db.local" (Number 3307) "app" "secret" None
          false false false false false false).
Proof. vm_compute. reflexivity. Qed.

Lemma executeQuery_row_limit_witness :
  fst (run_executeQuery (answers (VArray (numbered_rows 1500))) env_ok
         "SELECT id FROM t" [] None initial)
  = ok {| rows := VArray (map coerceRow (firstn 1000 (numbered_rows 1500)));
          fields := VArray [] |}
  ∧ length (map coerceRow (firstn 1000 (numbered_rows 1500))) = 1000%nat
  ∧ run_executeQuery (answers (VArray (numbered_rows 1500))) env_ok
      "SELECT id FROM t" [] None initial
    = run_executeQuery (answers (VArray (firstn 1000 (numbered_rows 1500))))
        env_ok "SELECT id FROM t" [] None initial.
Proof.
  assert (DEFAULT_ROW_LIMIT < length (numbered_rows 1500))%nat as Hlong.
  { apply Nat.ltb_lt. vm_compute. reflexivity. }
  destruct (executeQuery_row_limit parseInt10 isAllowed
              (answers (VArray (numbered_rows 1500))) env_ok
              "SELECT id FROM t" [] None initial (numbered_rows 1500)
              VUndefined eq_refl Hlong)
    as (_ & Hlen & _ & Hsame & Hok).
  split; [|split; [exact Hlen | exact Hsame]].
  apply Hok.
  - right. split; [eexists; reflexivity | reflexivity].
  - reflexivity.
  - reflexivity.
  - left. vm_compute. discriminate.
  - reflexivity.
Defined.

Example ex_row_limit_first_and_last :
  map coerceRow (firstn 1000 (numbered_rows 1500)) !! 0%nat
  = Some (VObject [("id", VNumber (Number 0))])
  ∧ map coerceRow (firstn 1000 (numbered_rows 1500)) !! 999%nat
    = Some (VObject [("id", VNumber (Number 999))])
  ∧ map coerceRow (firstn 1000 (numbered_rows 1500)) !! 1000%nat = None.
Proof. vm_compute. by repeat split. Qed.

(** * Further properties *)

(** ** Coercion within the safe range *)

Lemma digits2_pos_upper (m : positive) :
  Z.pos m < 2 ^ Z.pos (digits2_pos m).
Proof.
  induction m as [p IH|p IH|]; simpl; [| |reflexivity];
    rewrite Pos2Z.inj_succ, Z.pow_succ_r by lia; lia.
Qed.

Lemma digits2_pos_lower (m : positive) :
  2 ^ (Z.pos (digits2_pos m) - 1) <= Z.pos m.
Proof.
  induction m as [p IH|p IH|]; simpl; [| |reflexivity];
    rewrite Pos2Z.inj_succ;
    replace (Z.succ (Z.pos (digits2_pos p)) - 1)
      with (Z.succ (Z.pos (digits2_pos p) - 1)) by lia;
    rewrite Z.pow_succ_r by lia; lia.
Qed.

Lemma digits2_pos_safe (m : positive) :
  Z.pos m <= MAX_SAFE → Z.pos (digits2_pos m) <= 53.
Proof.
  intros Hm. pose proof (digits2_pos_lower m) as Hlow.
  destruct (Z_le_gt_dec (Z.pos (digits2_pos m)) 53) as [|Hbig]; [done|].
  assert (2 ^ 53 <= 2 ^ (Z.pos (digits2_pos m) - 1)) as Hpow
    by (apply Z.pow_le_mono_r; lia).
  unfold MAX_SAFE in Hm. change (2 ^ 53) with 9007199254740992 in Hpow. lia.
Qed.

Lemma digits2_pos_iter (m k : positive) :
  digits2_pos (Pos.iter xO m k) = (digits2_pos m + k)%positive.
Proof.
  induction k as [|k IH] using Pos.peano_ind.
  - simpl. lia.
  - rewrite Pos.iter_succ. simpl. rewrite IH. lia.
Qed.

Lemma pos_iter_value (m k : positive) :
  Z.pos (Pos.iter xO m k) = Z.pos m * 2 ^ Z.pos k.
Proof.
  induction k as [|k IH] using Pos.peano_ind.
  - simpl. lia.
  - rewrite Pos.iter_succ, Pos2Z.inj_xO, IH, Pos2Z.inj_succ.
    rewrite Z.pow_succ_r by lia. lia.
Qed.

Lemma binary_round_aux_full (s : bool) (mz : positive) (ez : Z) :
  Z.pos (digits2_pos mz) = 53 → -52 <= ez <= 0 →
  binary_round_aux 53 1024 s (Z.pos mz) ez loc_Exact = S754_finite s mz ez.
Proof.
  intros Hd He. unfold binary_round_aux.
  assert (shr_fexp 53 1024 (Z.pos mz) ez loc_Exact
          = ({| shr_m := Z.pos mz; shr_r := false; shr_s := false |}, ez))
    as Hshr.
  { unfold shr_fexp, fexp, emin, Zdigits2. rewrite Hd.
    replace (Z.max (53 + ez - 53) (3 - 1024 - 53) - ez) with 0 by lia.
    reflexivity. }
  rewrite Hshr. cbn [shr_m loc_of_shr_record round_nearest_even].
  rewrite Hshr. cbn [shr_m].
  assert ((ez <=? 1024 - 53)%Z = true) as -> by (apply Z.leb_le; lia).
  reflexivity.
Qed.

Lemma Number_pos (s : bool) (m : positive) :
  Z.pos m <= MAX_SAFE →
  number_value (binary_round 53 1024 s m 0)
  = Some (if s then - Z.pos m else Z.pos m).
Proof.
  intros Hm. pose proof (digits2_pos_safe m Hm) as Hd.
  unfold binary_round, shl_align, fexp, emin.
  replace (Z.max (Z.pos (digits2_pos m) + 0 - 53) (3 - 1024 - 53) - 0)
    with (Z.pos (digits2_pos m) - 53) by lia.
  replace (Z.max (Z.pos (digits2_pos m) + 0 - 53) (3 - 1024 - 53))
    with (Z.pos (digits2_pos m) - 53) by lia.
  destruct (Z.pos (digits2_pos m) - 53) as [|k|k] eqn:Hk; [|lia|].
  - rewrite binary_round_aux_full by lia. simpl.
    destruct s; f_equal; lia.
  - rewrite binary_round_aux_full.
    + unfold number_value. rewrite pos_iter_value.
      rewrite Z.mod_mul by lia. simpl.
      rewrite Z.div_mul by lia. done.
    + rewrite digits2_pos_iter. lia.
    + lia.
Qed.

Lemma Number_exact (z : Z) :
  Z.abs z <= MAX_SAFE → number_value (Number z) = Some z.
Proof.
  intros Hz. destruct z as [|m|m]; [done| |]; unfold Number.
  - apply (Number_pos false). lia.
  - apply (Number_pos true). lia.
Qed.

(** X5.  A bigint whose magnitude is at most [Number.MAX_SAFE_INTEGER] is
    converted without loss, whatever the environment: [convertScalar]
    returns a number, and the integer that number denotes is the bigint. *)
Theorem convertScalar_exact_in_range (env : Env) (z : Z) :
  Z.abs z <= MAX_SAFE →
  ∃ n, convertScalar env (VBigInt z) = ok (VNumber n)
    ∧ number_value n = Some z.
Proof.
  intros Hz. exists (Number z). split; [|by apply Number_exact].
  unfold convertScalar.
  assert (((z >? MAX_SAFE) || (z <? - MAX_SAFE))%Z = false) as ->.
  { apply orb_false_iff. rewrite Z.gtb_ltb, !Z.ltb_ge. lia. }
  by destruct (env_is_true env _).
Qed.

Lemma convertScalar_exact_in_range_witness :
  ∃ n, convertScalar {["MARIADB_CHECK_NUMBER_RANGE" := "true"]}
         (VBigInt (-9007199254740991)) = ok (VNumber n)
    ∧ number_value n = Some (-9007199254740991).
Proof.
  apply (convertScalar_exact_in_range
           {["MARIADB_CHECK_NUMBER_RANGE" := "true"]} (-9007199254740991)).
  vm_compute. discriminate.
Defined.

(** Outside the range the number denotes another integer. *)
Example ex_number_value_lossy :
  number_value (Number 9007199254740993) = Some 9007199254740992.
Proof. vm_compute. reflexivity. Qed.

(** ** The outcome of normalisation *)

Lemma convertScalar_outcome env v :
  convertScalar env v
  = if env_is_true env "MARIADB_CHECK_NUMBER_RANGE"
    then match first_unsafe_scalar v with
         | Some z => throw (range_error z)
         | None => ok (coerceScalar v)
         end
    else ok (coerceScalar v).
Proof.
  destruct v; simpl; try by destruct (env_is_true env _).
  destruct (env_is_true env _); [|done].
  by destruct ((v >? MAX_SAFE) || (v <? - MAX_SAFE))%Z.
Qed.

Lemma convertFields_outcome env fields :
  convertFields env fields
  = if env_is_true env "MARIADB_CHECK_NUMBER_RANGE"
    then match first_unsafe_field fields with
         | Some z => throw (range_error z)
         | None => ok (map (λ kv, (fst kv, coerceScalar (snd kv))) fields)
         end
    else ok (map (λ kv, (fst kv, coerceScalar (snd kv))) fields).
Proof.
  induction fields as [|[k v] rest IH]; simpl.
  { by destruct (env_is_true env _). }
  rewrite convertScalar_outcome, IH.
  destruct (env_is_true env _); [|done].
  destruct (first_unsafe_scalar v); [done|]. simpl.
  by destruct (first_unsafe_field rest).
Qed.

Lemma first_unsafe_scalar_unsafe v z :
  first_unsafe_scalar v = Some z → Z.abs z > MAX_SAFE.
Proof.
  destruct v as [| | | | |z'| | | |]; simpl; try done.
  destruct ((z' >? MAX_SAFE) || (z' <? - MAX_SAFE))%Z eqn:H; [|done].
  intros [= <-]. apply orb_true_iff in H.
  rewrite Z.gtb_lt, Z.ltb_lt in H. lia.
Qed.

Lemma first_unsafe_unsafe row z :
  first_unsafe row = Some z → Z.abs z > MAX_SAFE.
Proof.
  revert z.
  induction row as [| | | | | | | |elems IH|fields] using value_deep_ind;
    try done.
  - simpl. induction IH as [|x xs Hx _ IHxs]; simpl; [done|].
    intros z. destruct (first_unsafe x) as [z'|].
    + intros [= <-]. by apply Hx.
    + apply IHxs.
  - simpl. induction fields as [|[k v] rest IH]; simpl; [done|].
    intros z. destruct (first_unsafe_scalar v) as [z'|] eqn:Hv.
    + intros [= <-]. by apply (first_unsafe_scalar_unsafe v).
    + apply IH.
Qed.

Lemma normalizeRow_closed_form (env : Env) (row : value) :
  normalizeRow env row
  = if env_is_true env "MARIADB_CHECK_NUMBER_RANGE"
    then match first_unsafe row with
         | Some z => throw (range_error z)
         | None => ok (coerceRow row)
         end
    else ok (coerceRow row).
Proof.
  induction row as [| | | | | | | |elems IH|fields] using value_deep_ind;
    try (simpl; by destruct (env_is_true env _)).
  - rewrite normalizeRow_array.
    assert (normalizeRows env elems
            = if env_is_true env "MARIADB_CHECK_NUMBER_RANGE"
              then match first_unsafe (VArray elems) with
                   | Some z => throw (range_error z)
                   | None => ok (map coerceRow elems)
                   end
              else ok (map coerceRow elems)) as ->.
    { induction IH as [|x xs Hx _ IHxs]; simpl.
      { by destruct (env_is_true env _). }
      rewrite Hx, IHxs. simpl.
      destruct (env_is_true env _); [|done].
      destruct (first_unsafe x); [done|]. simpl.
      by destruct ((fix first_in (l : list value) : option Z :=
                      match l with
                      | [] => None
                      | x0 :: xs0 =>
                          match first_unsafe x0 with
                          | Some z => Some z
                          | None => first_in xs0
                          end
                      end) xs). }
    destruct (env_is_true env _); [|done].
    by destruct (first_unsafe (VArray elems)).
  - simpl. rewrite convertFields_outcome.
    destruct (env_is_true env _); [|done].
    by destruct (first_unsafe_field fields).
Qed.

(** X1.  [normalizeRow] throws exactly when the range check is on and the
    walk meets a bigint field outside the safe range; the error is the one
    of [convertScalar] for the first such value in the order of the walk,
    and nothing after it is looked at.  In every other case the call
    returns. *)
Theorem normalizeRow_outcome (env : Env) (row : value) :
  normalizeRow env row
  = (if env_is_true env "MARIADB_CHECK_NUMBER_RANGE"
     then match first_unsafe row with
          | Some z => throw (range_error z)
          | None => ok (coerceRow row)
          end
     else ok (coerceRow row))
  ∧ (∀ z, first_unsafe row = Some z → Z.abs z > MAX_SAFE).
Proof.
  split; [apply normalizeRow_closed_form | apply first_unsafe_unsafe].
Qed.

Example ex_first_range_error :
  normalizeRow {["MARIADB_CHECK_NUMBER_RANGE" := "true"]}
    (VArray [VObject [("a", VBigInt 1); ("b", VBigInt (-9007199254740992))];
             VObject [("a", VBigInt 9007199254740992)]])
  = throw (Error "BIGINT out of safe JS range: -9007199254740992").
Proof. vm_compute. reflexivity. Qed.

Lemma coerceScalar_idem v : coerceScalar (coerceScalar v) = coerceScalar v.
Proof. by destruct v. Qed.

Lemma coerceRow_idem row : coerceRow (coerceRow row) = coerceRow row.
Proof.
  induction row as [| | | | | | | |elems IH|fields] using value_deep_ind;
    try done.
  - simpl. f_equal. rewrite map_map.
    induction IH as [|x xs Hx _ IHxs]; simpl; [done|]. by rewrite Hx, IHxs.
  - simpl. f_equal. rewrite map_map. simpl.
    induction fields as [|[k v] rest IH]; simpl; [done|].
    by rewrite coerceScalar_idem, IH.
Qed.

Lemma first_unsafe_coerced row : first_unsafe (coerceRow row) = None.
Proof.
  induction row as [| | | | | | | |elems IH|fields] using value_deep_ind;
    try done.
  - simpl. induction IH as [|x xs Hx _ IHxs]; simpl; [done|].
    by rewrite Hx.
  - simpl. induction fields as [|[k v] rest IH]; simpl; [done|].
    by destruct v.
Qed.

(** X2.  Normalising a normalised value changes nothing and cannot throw,
    under any environment: what [normalizeRow] returns is a fixed point of
    [normalizeRow]. *)
Theorem normalizeRow_idempotent (env env' : Env) (row row' : value) :
  normalizeRow env row = ok row' → normalizeRow env' row' = ok row'.
Proof.
  intros ->%normalizeRow_returned.
  rewrite normalizeRow_closed_form, first_unsafe_coerced, coerceRow_idem.
  by destruct (env_is_true env' _).
Qed.

Lemma normalizeRow_idempotent_witness :
  normalizeRow {["MARIADB_CHECK_NUMBER_RANGE" := "true"]}
    (VArray [VObject [("id", VNumber (Number 9007199254740993))]])
  = ok (VArray [VObject [("id", VNumber (Number 9007199254740993))]]).
Proof.
  apply (normalizeRow_idempotent ∅
           {["MARIADB_CHECK_NUMBER_RANGE" := "true"]}
           (VArray [VObject [("id", VBigInt 9007199254740993)]])).
  reflexivity.
Defined.

Lemma coerceRow_clean row :
  record_rows row = true → has_bigint (coerceRow row) = false.
Proof.
  induction row as [| | | | | | | |elems IH|fields] using value_deep_ind;
    try done.
  - simpl. induction IH as [|x xs Hx _ IHxs]; simpl; [done|].
    intros [Hx' Hxs']%andb_true_iff. by rewrite Hx, IHxs.
  - simpl. induction fields as [|[k v] rest IH]; simpl; [done|].
    intros [Hv Hrest]%andb_true_iff. rewrite IH by done.
    by destruct v.
Qed.

(** X3.  For a result set made of records with scalar fields, in arrays
    nested to any depth, what [normalizeRow] returns holds no bigint at
    all. *)
Theorem normalizeRow_records_clean (env : Env) (row row' : value) :
  record_rows row = true → normalizeRow env row = ok row' →
  has_bigint row' = false.
Proof.
  intros Hrows ->%normalizeRow_returned. by apply coerceRow_clean.
Qed.

Lemma normalizeRow_records_clean_witness :
  has_bigint
    (VArray [VArray [VObject [("id", VNumber (Number 7));
                              ("name", VString "a")]];
             VArray []]) = false.
Proof.
  apply (normalizeRow_records_clean ∅
           (VArray [VArray [VObject [("id", VBigInt 7);
                                     ("name", VString "a")]];
                    VArray []])).
  - reflexivity.
  - reflexivity.
Defined.

Lemma coerceRow_shape row : shape (coerceRow row) = shape row.
Proof.
  induction row as [| | | | | | | |elems IH|fields] using value_deep_ind;
    try done.
  - simpl. f_equal. rewrite map_map.
    induction IH as [|x xs Hx _ IHxs]; simpl; [done|]. by rewrite Hx, IHxs.
  - simpl. f_equal. by rewrite map_map.
Qed.

(** X4.  Normalisation neither adds, drops nor reorders anything: the
    value returned has the arrays of the argument, nested the same way and
    of the same lengths, and its records have the same keys in the same
    order. *)
Theorem normalizeRow_keeps_shape (env : Env) (row row' : value) :
  normalizeRow env row = ok row' → shape row' = shape row.
Proof. intros ->%normalizeRow_returned. apply coerceRow_shape. Qed.

Lemma normalizeRow_keeps_shape_witness :
  shape (VArray [VObject [("id", VNumber (Number 7)); ("name", VString "a")];
                 VObject [("id", VNumber (Number 8)); ("name", VNull)]])
  = shape (VArray [VObject [("id", VBigInt 7); ("name", VString "a")];
                   VObject [("id", VBigInt 8); ("name", VNull)]]).
Proof.
  apply (normalizeRow_keeps_shape ∅). reflexivity.
Defined.

(** ** Invocations as a whole *)

Section MoreProperties.

Variable parseInt : string → number.
Variable isAlloowedQuery : Env → string → bool.

Set Default Proof Using "Type".

(** When pool set-up does not let the invocation through, the invocation
    ends there. *)
Lemma executeQuery_not_ready o env sql params database m :
  pool_ready parseInt o env m = false →
  ∃ e pre,
    fst (executeQuery parseInt isAlloowedQuery o env sql params database m)
    = throw e
    ∧ pool m = None
    ∧ (getConfigFromEnv parseInt env = throw e ∨ createPool_throws o = Some e)
    ∧ calls (driver (snd (executeQuery parseInt isAlloowedQuery o env sql
                            params database m)))
      = (calls (driver m) ++ pre)%list
    ∧ Forall (λ call, is_CreatePool call = true) pre
    ∧ pool (snd (executeQuery parseInt isAlloowedQuery o env sql params
                   database m)) = None
    ∧ ended (driver (snd (executeQuery parseInt isAlloowedQuery o env sql
                            params database m)))
      = ended (driver m).
Proof.
  unfold pool_ready. rewrite executeQuery_unfold.
  destruct m as [pl cn [nid ls en cs]]. simpl.
  destruct pl as [p|]; [done|].
  unfold createConnectionPool, bind, lift, get_pool, drv_createPool,
    on_driver, set_pool, ret, record_call.
  destruct (getConfigFromEnv parseInt env) as [e|cfg]; simpl.
  - intros _. exists e, []. rewrite (right_id_L [] (++)).
    by repeat split; eauto.
  - destruct (createPool_throws o) as [e|]; [|done]. simpl.
    intros _. exists e. eexists [_].
    repeat split; eauto; by repeat constructor.
Qed.

(** When it does, the invocation is the guarded part, run on a machine that
    differs from the initial one by the pool just installed, if any. *)
Lemma executeQuery_ready o env sql params database m :
  pool_ready parseInt o env m = true →
  ∃ p m1 pre,
    executeQuery parseInt isAlloowedQuery o env sql params database m
    = try_finally
        (executeQuery_body isAlloowedQuery o env sql params database p)
        executeQuery_finally m1
    ∧ pool m1 = Some p
    ∧ connection m1 = connection m
    ∧ leased (driver m1) = leased (driver m)
    ∧ ended (driver m1) = ended (driver m)
    ∧ calls (driver m1) = (calls (driver m) ++ pre)%list
    ∧ Forall (λ call, is_CreatePool call = true) pre
    ∧ (∀ p', pool m = Some p' → p = p' ∧ m1 = m ∧ pre = [])
    ∧ (pool m = None → pre = [CreatePool (pool_config p)]).
Proof.
  unfold pool_ready. rewrite executeQuery_unfold.
  destruct m as [pl cn [nid ls en cs]]. simpl.
  destruct pl as [p|].
  - intros _. exists p. eexists. exists []. split; [reflexivity|].
    simpl. rewrite (right_id_L [] (++)). repeat split; try done; congruence.
  - unfold createConnectionPool, bind, lift, get_pool, drv_createPool,
      on_driver, set_pool, ret, record_call.
    destruct (getConfigFromEnv parseInt env) as [e|cfg]; simpl; [done|].
    destruct (createPool_throws o) as [e|]; [done|]. simpl.
    intros _. do 2 eexists. eexists [_]. split; [reflexivity|]. simpl.
    repeat split; try done. by repeat constructor.
Qed.

Lemma try_finally_result' o env sql params database p m :
  fst (try_finally
         (executeQuery_body isAlloowedQuery o env sql params database p)
         executeQuery_finally m)
  = match connection m, getConnection_rejects o with
    | None, Some e => throw e
    | _, _ =>
        match use_rejects o with
        | Some e =>
            if truthy database then throw e
            else if isAlloowedQuery env sql then query_result o env params
            else throw (Error "Query not allowed")
        | None =>
            if isAlloowedQuery env sql then query_result o env params
            else throw (Error "Query not allowed")
        end
    end.
Proof. apply try_finally_result. Qed.

(** X6.  [executeQuery] succeeds exactly when pool set-up lets it through,
    a lease is at hand, the database switch (if any) is accepted, the
    validator allows the statement, the query resolves, the limited rows
    normalise and the parameters hold no bigint; the result then carries
    the normalised limited rows and the metadata of the query, or the empty
    array when there is none. *)
Theorem executeQuery_succeeds_iff (o : Outcomes) (env : Env) (sql : string)
    (params : list value) (database : option string) (m : Machine)
    (res : QueryOutput) :
  fst (executeQuery parseInt isAlloowedQuery o env sql params database m)
  = ok res
  ↔ pool_ready parseInt o env m = true
    ∧ reaches_validator o database m = true
    ∧ isAlloowedQuery env sql = true
    ∧ existsb has_bigint params = false
    ∧ ∃ result,
        query_outcome o = ok result
        ∧ normalizeRow env (limitRows (dr_value result)) = ok (rows res)
        ∧ fields res = (if nullish (dr_meta result) then VArray []
                        else dr_meta result).
Proof.
  destruct (pool_ready parseInt o env m) eqn:Hready.
  - destruct (executeQuery_ready o env sql params database m Hready)
      as (p & m1 & pre & -> & _ & Hcn & _).
    rewrite try_finally_result', Hcn.
    unfold reaches_validator, query_result, JSON_stringify_check.
    destruct (connection m), (getConnection_rejects o), (use_rejects o),
      (truthy database), (isAlloowedQuery env sql); simpl;
      try (split; [done|by intros (_ & ? & ? & _)]);
      (destruct (query_outcome o) as [e'|result]; simpl;
       [split; [done|by intros (_ & _ & _ & _ & ? & ? & _)]|];
       destruct (normalizeRow env (limitRows (dr_value result)))
         as [e'|rows'] eqn:Hnorm; simpl;
       [split; [done|];
        intros (_ & _ & _ & _ & ? & [= <-] & ? & _); unfold ok in *;
        congruence|];
       destruct (existsb has_bigint params); simpl;
       [split; [done|by intros (_ & _ & _ & ? & _)]|];
       split;
       [intros [= <-]; repeat split; by exists result
       |intros (_ & _ & _ & _ & ? & [= <-] & Hrows & Hfields);
        destruct res as [r f]; unfold ok in *; simpl in *; congruence]).
  - destruct (executeQuery_not_ready o env sql params database m Hready)
      as (e & pre & -> & _).
    split; [done|by intros [? _]].
Qed.

(** X7.  Whatever [executeQuery] returns, [rows] is the normalised limited
    value of the query; when it is an array, the query value was an array
    and [rows] has as many elements as that array, but never more than
    1000. *)
Theorem executeQuery_row_bound (o : Outcomes) (env : Env) (sql : string)
    (params : list value) (database : option string) (m : Machine)
    (res : QueryOutput) :
  fst (executeQuery parseInt isAlloowedQuery o env sql params database m)
  = ok res →
  ∃ result,
    query_outcome o = ok result
    ∧ rows res = coerceRow (limitRows (dr_value result))
    ∧ ∀ elems, rows res = VArray elems →
        ∃ elems0, dr_value result = VArray elems0
          ∧ length elems = Nat.min 1000 (length elems0).
Proof.
  intros (result & Hquery & Hrows%normalizeRow_returned & _)%executeQuery_ok_inv.
  exists result. split; [done|]. split; [done|].
  intros elems. rewrite Hrows. unfold limitRows.
  destruct (dr_value result) as [| | | | | | | |elems0|fields0]; try done.
  intros Helems. exists elems0. split; [done|].
  unfold DEFAULT_ROW_LIMIT in Helems.
  destruct (Nat.ltb_spec 1000 (length elems0)); simpl in Helems;
    injection Helems as <-; rewrite length_map, ?length_take; lia.
Qed.

(** X8.  An error thrown by [executeQuery] is always one of these, handed
    on unchanged: the configuration error or the construction error of pool
    set-up, the rejection of the checkout, the rejection of the database
    switch, ["Query not allowed"], the rejection of the query, the error of
    normalisation, or the error of logging the parameters. *)
Theorem executeQuery_error_origin (o : Outcomes) (env : Env) (sql : string)
    (params : list value) (database : option string) (m : Machine)
    (e : exn) :
  fst (executeQuery parseInt isAlloowedQuery o env sql params database m)
  = throw e →
  (pool m = None ∧ getConfigFromEnv parseInt env = throw e)
  ∨ (pool m = None ∧ createPool_throws o = Some e)
  ∨ (connection m = None ∧ getConnection_rejects o = Some e)
  ∨ (truthy database = true ∧ use_rejects o = Some e)
  ∨ (isAlloowedQuery env sql = false ∧ e = Error "Query not allowed")
  ∨ query_outcome o = throw e
  ∨ (∃ result, query_outcome o = ok result
       ∧ normalizeRow env (limitRows (dr_value result)) = throw e)
  ∨ JSON_stringify_check params = throw e.
Proof.
  destruct (pool_ready parseInt o env m) eqn:Hready.
  - destruct (executeQuery_ready o env sql params database m Hready)
      as (p & m1 & pre & -> & _ & Hcn & _).
    rewrite try_finally_result', Hcn. unfold query_result.
    destruct (connection m), (getConnection_rejects o), (use_rejects o),
      (truthy database) eqn:Hdb, (isAlloowedQuery env sql); simpl;
      try (intros [= <-]; tauto);
      (destruct (query_outcome o) as [e'|result]; simpl;
       [intros [= <-]; tauto|];
       destruct (normalizeRow env (limitRows (dr_value result)))
         as [e'|rows'] eqn:Hnorm; simpl;
       [intros [= <-]; do 6 right; left; by exists result|];
       destruct (JSON_stringify_check params) as [e'|[]]; simpl;
       [intros [= <-]; tauto|done]).
  - destruct (executeQuery_not_ready o env sql params database m Hready)
      as (e' & pre & -> & Hpool & Horigin & _).
    intros [= <-]. tauto.
Qed.

(** The calls of an invocation that gets past pool set-up. *)
Lemma executeQuery_new_calls o env sql params database m :
  pool_ready parseInt o env m = true →
  ∃ p m1 pre,
    new_calls m (snd (executeQuery parseInt isAlloowedQuery o env sql params
                        database m))
    = (pre ++ guarded_calls isAlloowedQuery o env sql params database p m1)%list
    ∧ connection m1 = connection m
    ∧ (pre = [] ∨ ∃ cfg, pre = [CreatePool cfg]).
Proof.
  intros Hready.
  destruct (executeQuery_ready o env sql params database m Hready)
    as (p & m1 & pre & -> & _ & Hcn & _ & _ & Hcalls & _ & Hsome & Hnone).
  exists p, m1, pre.
  destruct (try_finally_calls isAlloowedQuery o env sql params database p m1)
    as (Hguarded & _).
  rewrite Hcalls, <- (assoc_L (++)) in Hguarded.
  rewrite (new_calls_app _ _ _ Hguarded). split; [done|]. split; [done|].
  destruct (pool m) as [p'|]; [left; by apply (Hsome p')|right].
  eexists. by apply Hnone.
Qed.

(** X9.  With a bigint among the parameters the call never succeeds: the
    success log line stringifies the parameters, which throws.  When
    everything before lets the statement through, it has by then been sent
    to the database with those parameters. *)
Theorem executeQuery_bigint_param (o : Outcomes) (env : Env) (sql : string)
    (params : list value) (database : option string) (m : Machine) :
  existsb has_bigint params = true →
  (∃ e, fst (executeQuery parseInt isAlloowedQuery o env sql params
               database m) = throw e)
  ∧ (pool_ready parseInt o env m = true →
     reaches_validator o database m = true →
     isAlloowedQuery env sql = true →
     ∃ c, In (Query c (QOpts (QueryOptions.Build sql true true
                                DEFAULT_TIMEOUT)) (Some params))
            (new_calls m (snd (executeQuery parseInt isAlloowedQuery o env
                                 sql params database m)))).
Proof.
  intros Hbig. split.
  - destruct (pool_ready parseInt o env m) eqn:Hready.
    + destruct (executeQuery_ready o env sql params database m Hready)
        as (p & m1 & pre & -> & _).
      rewrite try_finally_result'.
      unfold query_result, JSON_stringify_check. rewrite Hbig.
      destruct (connection m1), (getConnection_rejects o), (use_rejects o),
        (truthy database), (isAlloowedQuery env sql); simpl; eauto;
        (destruct (query_outcome o) as [e'|result]; simpl; eauto;
         destruct (normalizeRow env (limitRows (dr_value result))); simpl;
         eauto).
    + destruct (executeQuery_not_ready o env sql params database m Hready)
        as (e & pre & -> & _). eauto.
  - intros Hready Hreach Hallowed.
    destruct (executeQuery_new_calls o env sql params database m Hready)
      as (p & m1 & pre & -> & Hcn & _).
    exists (lease_used p m1).
    unfold guarded_calls, reaches_validator in *. rewrite Hcn, Hallowed.
    destruct (connection m), (getConnection_rejects o); try done;
      rewrite Hreach, !in_app_iff; simpl; intuition auto.
Qed.

Lemma filter_created (P : DriverCall → bool) (pre : list DriverCall) :
  (∀ cfg, P (CreatePool cfg) = false) →
  Forall (λ call, is_CreatePool call = true) pre →
  filter (λ call, P call = true) pre = [].
Proof.
  intros HP Hpre. induction Hpre as [|call pre Hcall _ IH]; [done|].
  rewrite filter_cons, IH. destruct call; try done.
  rewrite decide_False; [done|]. by rewrite HP.
Qed.

(** X10.  The submitted statement goes to the database at most once per
    invocation, always with named placeholders, metadata as array and the
    10 s timeout, and with the parameters as given; it goes exactly when
    pool set-up, lease, database switch and validator all let it
    through. *)
Theorem executeQuery_statement_once (o : Outcomes) (env : Env) (sql : string)
    (params : list value) (database : option string) (m : Machine) :
  let sent := filter (λ call, is_statement call = true)
                (new_calls m (snd (executeQuery parseInt isAlloowedQuery o
                                     env sql params database m))) in
  if pool_ready parseInt o env m && reaches_validator o database m
       && isAlloowedQuery env sql
  then ∃ c, sent = [Query c (QOpts (QueryOptions.Build sql true true 10000))
                      (Some params)]
  else sent = [].
Proof.
  intros sent. subst sent.
  destruct (pool_ready parseInt o env m) eqn:Hready; simpl.
  - destruct (executeQuery_new_calls o env sql params database m Hready)
      as (p & m1 & pre & -> & Hcn & Hpre).
    rewrite filter_app.
    assert (filter (λ call, is_statement call = true) pre = []) as ->.
    { by destruct Hpre as [->|[cfg ->]]. }
    simpl. unfold guarded_calls, reaches_validator, use_calls.
    rewrite Hcn.
    destruct (connection m), (getConnection_rejects o), (use_rejects o),
      database as [[|a db]|], (isAlloowedQuery env sql); simpl; eauto.
  - destruct (executeQuery_not_ready o env sql params database m Hready)
      as (e & pre & _ & _ & _ & Hcalls & Hpre & _).
    rewrite (new_calls_app _ _ _ Hcalls). by apply filter_created.
Qed.

(** X12.  The database switch does not depend on the validator: once pool
    set-up has succeeded and a lease is at hand, a non-empty database name
    is sent, as it is, between backticks in one [USE] statement, whatever
    the validator says about the statement; an absent or empty name sends
    none. *)
Theorem executeQuery_switch (o : Outcomes) (env : Env) (sql : string)
    (params : list value) (database : option string) (m : Machine) :
  let switches := filter (λ call, is_switch call = true)
                    (new_calls m (snd (executeQuery parseInt isAlloowedQuery
                                         o env sql params database m))) in
  if pool_ready parseInt o env m && lease_obtained o m
  then match database with
       | Some db =>
           if String.eqb db "" then switches = []
           else ∃ c, switches = [Query c (QSql ("USE `" +:+ db +:+ "`")) None]
       | None => switches = []
       end
  else switches = [].
Proof.
  intros switches. subst switches.
  destruct (pool_ready parseInt o env m) eqn:Hready; simpl.
  - destruct (executeQuery_new_calls o env sql params database m Hready)
      as (p & m1 & pre & -> & Hcn & Hpre).
    rewrite filter_app.
    assert (filter (λ call, is_switch call = true) pre = []) as ->.
    { by destruct Hpre as [->|[cfg ->]]. }
    simpl. unfold guarded_calls, lease_obtained, use_calls. rewrite Hcn.
    destruct (connection m), (getConnection_rejects o),
      (reaches_validator o database m1 && isAlloowedQuery env sql),
      database as [[|a db]|]; simpl; eauto.
  - destruct (executeQuery_not_ready o env sql params database m Hready)
      as (e & pre & _ & _ & _ & Hcalls & Hpre & _).
    rewrite (new_calls_app _ _ _ Hcalls). by apply filter_created.
Qed.

(** X13.  Once a pool is installed none of the three operations replaces
    it, removes it or asks the driver to construct another. *)
Theorem installed_pool_stays (p : Pool) (m : Machine) :
  pool m = Some p →
  (∀ o env,
     pool (snd (createConnectionPool parseInt o env m)) = Some p
     ∧ constructions (snd (createConnectionPool parseInt o env m))
       = constructions m)
  ∧ (∀ o env sql params database,
       pool (snd (executeQuery parseInt isAlloowedQuery o env sql params
                    database m)) = Some p
       ∧ constructions (snd (executeQuery parseInt isAlloowedQuery o env sql
                               params database m))
         = constructions m)
  ∧ (∀ answer,
       pool (snd (endConnection answer m)) = Some p
       ∧ constructions (snd (endConnection answer m)) = constructions m).
Proof.
  intros Hpool. split; [|split].
  - intros o env.
    destruct (createConnectionPool_calls parseInt o env m)
      as (pre & Hcalls & _ & Hpre & _).
    rewrite Hpre, (right_id_L [] (++)) in Hcalls by congruence.
    split; [|unfold constructions; by rewrite Hcalls].
    destruct m as [pl cn d]. simpl in Hpool. subst pl.
    unfold createConnectionPool, bind, lift, get_pool, ret.
    by destruct (getConfigFromEnv parseInt env).
  - intros o env sql params database.
    rewrite executeQuery_unfold, Hpool.
    destruct (try_finally_calls isAlloowedQuery o env sql params database p m)
      as (Hcalls & Hp & _).
    split; [congruence|].
    rewrite (constructions_app _ _ _ Hcalls),
      guarded_calls_no_construction. simpl. lia.
  - intros answer. destruct m as [pl cn [nid ls en cs]]. simpl in Hpool.
    subst pl.
    unfold endConnection, bind, get_pool, drv_end, on_driver, ret,
      record_call, constructions. simpl.
    split; [done|]. rewrite filter_app, length_app. simpl. lia.
Qed.

Lemma guarded_calls_on_pool o env sql params database p m :
  connection m = None →
  Forall (on_pool p) (guarded_calls isAlloowedQuery o env sql params database
                        p m).
Proof.
  intros Hc. unfold guarded_calls, lease_used, use_calls. rewrite Hc.
  destruct (getConnection_rejects o),
    (reaches_validator o database m && isAlloowedQuery env sql),
    database as [[|a db]|]; simpl; by repeat constructor.
Qed.

Lemma created_on_pool p (l : list DriverCall) :
  Forall (λ call, is_CreatePool call = true) l → Forall (on_pool p) l.
Proof. intros H. eapply Forall_impl; [exact H|]. by intros []. Qed.

(** X14.  Between invocations, in sequential use: no lease is held and
    none is outstanding; while no pool is installed the driver has only
    ever been asked to construct one and nothing was ended; once a pool is
    installed every checkout, statement, release and end went to that
    pool. *)
Theorem reachable_between_calls (m : Machine) :
  reachable parseInt isAlloowedQuery m →
  connection m = None
  ∧ leased (driver m) = []
  ∧ match pool m with
    | Some p => Forall (on_pool p) (calls (driver m))
                ∧ Forall (λ p', p' = p) (ended (driver m))
    | None => Forall (λ call, is_CreatePool call = true) (calls (driver m))
              ∧ ended (driver m) = []
    end.
Proof.
  intros Hreach. change (between_calls m).
  induction Hreach as [|o env m _ IH|o env sql params database m _ IH
                       |answer m _ IH].
  - repeat split; by constructor.
  - destruct IH as (Hc & Hl & Hp).
    destruct (createConnectionPool_keeps_leases parseInt o env m)
      as (Hc' & Hl' & _).
    destruct (createConnectionPool_calls parseInt o env m)
      as (pre & Hcalls & Hkinds & Hpre & _ & Hended).
    split; [congruence|]. split; [congruence|].
    rewrite Hcalls, Hended.
    destruct (pool m) as [p|] eqn:Hpool.
    + assert (pool (snd (createConnectionPool parseInt o env m)) = Some p)
        as ->.
      { destruct m as [pl cn d]. simpl in Hpool. subst pl.
        unfold createConnectionPool, bind, lift, get_pool, ret.
        by destruct (getConfigFromEnv parseInt env). }
      by rewrite Hpre, (right_id_L [] (++)).
    + destruct Hp as [Hcs Hen].
      destruct (pool (snd (createConnectionPool parseInt o env m))) as [p|].
      * rewrite Hen. split; [|by constructor].
        apply Forall_app. split; by apply created_on_pool.
      * split; [|done]. by apply Forall_app.
  - destruct IH as (Hc & Hl & Hp).
    destruct (executeQuery_releases parseInt isAlloowedQuery o env sql params
                database m Hc) as (Hc' & Hl' & _).
    { unfold leases_known. rewrite Hl. by constructor. }
    split; [done|]. split; [congruence|].
    destruct (pool_ready parseInt o env m) eqn:Hready.
    + destruct (executeQuery_ready o env sql params database m Hready)
        as (p & m1 & pre & -> & Hp1 & Hcn & _ & Hen & Hcalls & Hkinds
            & Hsome & Hnone).
      destruct (try_finally_calls isAlloowedQuery o env sql params database
                  p m1) as (-> & -> & -> & _).
      rewrite Hp1, Hcalls, Hen.
      assert (Forall (on_pool p) (calls (driver m))
              ∧ Forall (λ p', p' = p) (ended (driver m))) as [Hcs Hens].
      { destruct (pool m) as [p'|].
        - by destruct (Hsome p' eq_refl) as (-> & _).
        - destruct Hp as [Hcs ->]. split; [|by constructor].
          by apply created_on_pool. }
      split; [|done]. repeat (apply Forall_app; split); try done.
      * by apply created_on_pool.
      * apply guarded_calls_on_pool. congruence.
    + destruct (executeQuery_not_ready o env sql params database m Hready)
        as (e & pre & _ & Hpool & _ & -> & Hkinds & -> & ->).
      rewrite Hpool in Hp. destruct Hp as [Hcs Hen].
      split; [|done]. by apply Forall_app.
  - destruct IH as (Hc & Hl & Hp).
    destruct (endConnection_keeps_leases answer m) as (Hc' & Hl' & _ & Hp').
    split; [congruence|]. split; [congruence|]. rewrite Hp'.
    destruct m as [pl cn [nid ls en cs]]. simpl in *.
    unfold endConnection, bind, get_pool, drv_end, on_driver, ret,
      record_call. simpl.
    destruct pl as [p|]; simpl; [|done].
    destruct Hp as [Hcs Hens]. split.
    + apply Forall_app. split; [done|]. by repeat constructor.
    + by constructor.
Qed.

(** X15.  The configuration error names the first missing variable in the
    order host, user, password: a missing host is reported whatever the
    others are, a missing user only with a host, a missing password only
    with both. *)
Theorem getConfigFromEnv_first_missing (env : Env) :
  (missing env "MARIADB_HOST" →
   getConfigFromEnv parseInt env
   = throw (Error "MARIADB_HOST environment variable is required"))
  ∧ (∀ h, present env "MARIADB_HOST" h → missing env "MARIADB_USER" →
       getConfigFromEnv parseInt env
       = throw (Error "MARIADB_USER environment variable is required"))
  ∧ (∀ h u, present env "MARIADB_HOST" h → present env "MARIADB_USER" u →
       missing env "MARIADB_PASSWORD" →
       getConfigFromEnv parseInt env
       = throw (Error "MARIADB_PASSWORD environment variable is required")).
Proof.
  unfold getConfigFromEnv. split; [|split].
  - intros Hh. by rewrite (required_missing _ _ _ Hh).
  - intros h Hh Hu.
    by rewrite (required_present _ _ _ _ Hh), (required_missing _ _ _ Hu).
  - intros h u Hh Hu Hp.
    by rewrite (required_present _ _ _ _ Hh), (required_present _ _ _ _ Hu),
      (required_missing _ _ _ Hp).
Qed.

(** X16.  A pool constructed by [createConnectionPool] is configured from
    the environment of that call: host, user and password are the
    non-empty values of their variables, the database is the variable as it
    is, the port is 3306 when its variable is absent or empty, the limit is
    2 connections and the connect timeout 10 s, and each of the three
    conversion options is on exactly when its variable equals ["true"]. *)
Theorem createConnectionPool_options (o : Outcomes) (env : Env) (m m' : Machine)
    (p : Pool) :
  pool m = None →
  createConnectionPool parseInt o env m = (ok p, m') →
  let cfg := pool_config p in
  present env "MARIADB_HOST" (PoolConfig.host cfg)
  ∧ present env "MARIADB_USER" (PoolConfig.user cfg)
  ∧ present env "MARIADB_PASSWORD" (PoolConfig.password cfg)
  ∧ PoolConfig.database cfg = env !! "MARIADB_DATABASE"
  ∧ (missing env "MARIADB_PORT" → PoolConfig.port cfg = Number 3306)
  ∧ (∀ s, present env "MARIADB_PORT" s → PoolConfig.port cfg = parseInt s)
  ∧ PoolConfig.connectionLimit cfg = 2
  ∧ PoolConfig.connectTimeout cfg = 10000
  ∧ (PoolConfig.bigIntAsNumber cfg = true
     ↔ env !! "MARIADB_BIG_INT_AS_NUMBER" = Some "true")
  ∧ (PoolConfig.decimalAsNumber cfg = true
     ↔ env !! "MARIADB_DECIMAL_AS_NUMBER" = Some "true")
  ∧ (PoolConfig.checkNumberRange cfg = true
     ↔ env !! "MARIADB_CHECK_NUMBER_RANGE" = Some "true").
Proof.
  destruct m as [pl cn [nid ls en cs]]. simpl. intros ->.
  unfold createConnectionPool, bind, lift, get_pool, drv_createPool,
    on_driver, set_pool, ret, record_call, getConfigFromEnv.
  destruct (missing_or_present env "MARIADB_HOST") as [Hh|[h Hh]].
  { by rewrite (required_missing _ _ _ Hh). }
  rewrite (required_present _ _ _ _ Hh).
  destruct (missing_or_present env "MARIADB_USER") as [Hu|[u Hu]].
  { by rewrite (required_missing _ _ _ Hu). }
  rewrite (required_present _ _ _ _ Hu).
  destruct (missing_or_present env "MARIADB_PASSWORD") as [Hp|[pw Hp]].
  { by rewrite (required_missing _ _ _ Hp). }
  rewrite (required_present _ _ _ _ Hp). simpl.
  destruct (createPool_throws o); [done|]. simpl.
  intros [= <- _]. simpl.
  split; [exact Hh|]. split; [exact Hu|]. split; [exact Hp|].
  split; [done|].
  split. { by intros [-> | ->]. }
  split. { intros s [-> Hs]. by destruct s. }
  repeat split; try done; by apply env_is_true_spec.
Qed.

(** X17.  [endConnection] is not guarded against being called again: with
    a pool installed, two calls end that pool twice, the second returning
    whatever the driver answers then, and neither touches the lease
    variable; with no pool installed a call does nothing. *)
Theorem endConnection_repeated (first second : option exn) (m : Machine) :
  let m1 := snd (endConnection first m) in
  let m2 := snd (endConnection second m1) in
  match pool m with
  | Some p =>
      new_calls m m2 = [EndPool p; EndPool p]
      ∧ ended (driver m2) = p :: p :: ended (driver m)
      ∧ fst (endConnection second m1)
        = match second with Some e => throw e | None => ok tt end
      ∧ pool m2 = Some p
      ∧ connection m2 = connection m
  | None => endConnection first m = (ok tt, m) ∧ m2 = m
  end.
Proof.
  destruct m as [pl cn [nid ls en cs]].
  unfold endConnection, bind, get_pool, drv_end, on_driver, ret, record_call,
    new_calls. simpl.
  destruct pl as [p|]; simpl; [|done].
  rewrite <- (assoc_L (++)). by rewrite drop_app_length.
Qed.

End MoreProperties.

(** ** The further properties on concrete inputs *)

Lemma executeQuery_succeeds_iff_witness :
  fst (run_executeQuery
         (answers (VArray [VObject [("id", VBigInt 7)]])) env_ok
         "SELECT id FROM t" [VString "x"] (Some "shop") initial)
  = ok {| rows := VArray [VObject [("id", VNumber (Number 7))]];
          fields := VArray [] |}.
Proof.
  apply (executeQuery_succeeds_iff parseInt10 isAllowed
           (answers (VArray [VObject [("id", VBigInt 7)]])) env_ok
           "SELECT id FROM t" [VString "x"] (Some "shop") initial).
  repeat split; try reflexivity.
  eexists. repeat split; reflexivity.
Defined.

Lemma executeQuery_row_bound_witness :
  ∃ result,
    query_outcome (answers (VArray (numbered_rows 3))) = ok result
    ∧ rows {| rows := VArray (map coerceRow (numbered_rows 3));
              fields := VArray [] |}
      = coerceRow (limitRows (dr_value result))
    ∧ ∀ elems,
        rows {| rows := VArray (map coerceRow (numbered_rows 3));
                fields := VArray [] |} = VArray elems →
        ∃ elems0, dr_value result = VArray elems0
          ∧ length elems = Nat.min 1000 (length elems0).
Proof.
  apply (executeQuery_row_bound parseInt10 isAllowed
           (answers (VArray (numbered_rows 3))) env_ok "SELECT id FROM t" []
           None initial).
  vm_compute. reflexivity.
Defined.

Lemma executeQuery_error_origin_witness :
  (pool after_select = None
   ∧ getConfigFromEnv parseInt10 env_ok = throw (Error "Query timed out"))
  ∨ (pool after_select = None
     ∧ createPool_throws query_fails = Some (Error "Query timed out"))
  ∨ (connection after_select = None
     ∧ getConnection_rejects query_fails = Some (Error "Query timed out"))
  ∨ (truthy None = true
     ∧ use_rejects query_fails = Some (Error "Query timed out"))
  ∨ (isAllowed env_ok "SELECT 1" = false
     ∧ Error "Query timed out" = Error "Query not allowed")
  ∨ query_outcome query_fails = throw (Error "Query timed out")
  ∨ (∃ result, query_outcome query_fails = ok result
       ∧ normalizeRow env_ok (limitRows (dr_value result))
         = throw (Error "Query timed out"))
  ∨ JSON_stringify_check [] = throw (Error "Query timed out").
Proof.
  apply (executeQuery_error_origin parseInt10 isAllowed query_fails env_ok
           "SELECT 1" [] None after_select).
  vm_compute. reflexivity.
Defined.

Lemma executeQuery_bigint_param_witness :
  (∃ e, fst (run_executeQuery (answers (VArray [])) env_ok
               "SELECT * FROM t WHERE id = :id" [VBigInt 5] None initial)
        = throw e)
  ∧ (pool_ready parseInt10 (answers (VArray [])) env_ok initial = true →
     reaches_validator (answers (VArray [])) None initial = true →
     isAllowed env_ok "SELECT * FROM t WHERE id = :id" = true →
     ∃ c, In (Query c (QOpts (QueryOptions.Build
                                "SELECT * FROM t WHERE id = :id" true true
                                DEFAULT_TIMEOUT)) (Some [VBigInt 5]))
            (new_calls initial
               (snd (run_executeQuery (answers (VArray [])) env_ok
                       "SELECT * FROM t WHERE id = :id" [VBigInt 5] None
                       initial)))).
Proof.
  apply (executeQuery_bigint_param parseInt10 isAllowed (answers (VArray []))
           env_ok "SELECT * FROM t WHERE id = :id" [VBigInt 5] None initial).
  reflexivity.
Defined.

Example ex_bigint_param_calls :
  run_executeQuery (answers (VArray [])) env_ok
    "SELECT * FROM t WHERE id = :id" [VBigInt 5] None after_select
  = (throw (Error "Do not know how to serialize a BigInt"),
     {| pool := Some pool0; connection := None;
        driver := {| next_id := 3; leased := []; ended := [];
                     calls := calls (driver after_select)
                              ++ [GetConnection pool0;
                                  Query lease2
                                    (QOpts (QueryOptions.Build
                                              "SELECT * FROM t WHERE id = :id"
                                              true true 10000))
                                    (Some [VBigInt 5]);
                                  Release lease2] |} |}).
Proof. vm_compute. reflexivity. Qed.

Lemma installed_pool_stays_witness :
  (∀ o env,
     pool (snd (createConnectionPool parseInt10 o env after_select))
     = Some pool0
     ∧ constructions (snd (createConnectionPool parseInt10 o env
                             after_select))
       = constructions after_select)
  ∧ (∀ o env sql params database,
       pool (snd (executeQuery parseInt10 isAllowed o env sql params
                    database after_select)) = Some pool0
       ∧ constructions (snd (executeQuery parseInt10 isAllowed o env sql
                               params database after_select))
         = constructions after_select)
  ∧ (∀ answer,
       pool (snd (endConnection answer after_select)) = Some pool0
       ∧ constructions (snd (endConnection answer after_select))
         = constructions after_select).
Proof.
  apply (installed_pool_stays parseInt10 isAllowed pool0 after_select).
  reflexivity.
Defined.

Lemma reachable_between_calls_witness :
  let m := snd (run_executeQuery query_fails env_ok "SELECT 1" []
                  (Some "shop") (snd (endConnection None after_select))) in
  connection m = None
  ∧ leased (driver m) = []
  ∧ match pool m with
    | Some p => Forall (on_pool p) (calls (driver m))
                ∧ Forall (λ p', p' = p) (ended (driver m))
    | None => Forall (λ call, is_CreatePool call = true) (calls (driver m))
              ∧ ended (driver m) = []
    end.
Proof.
  apply (reachable_between_calls parseInt10 isAllowed).
  apply reachable_executeQuery, reachable_endConnection,
    reachable_executeQuery, reachable_initial.
Defined.

Lemma getConfigFromEnv_first_missing_witness :
  getConfigFromEnv parseInt10 (<["MARIADB_PASSWORD" := "secret"]> ∅)
  = throw (Error "MARIADB_HOST environment variable is required")
  ∧ getConfigFromEnv parseInt10
      (<["MARIADB_HOST" := "db.local"]> (<["MARIADB_USER" := ""]> ∅))
    = throw (Error "MARIADB_USER environment variable is required")
  ∧ getConfigFromEnv parseInt10 env_no_password
    = throw (Error "MARIADB_PASSWORD environment variable is required").
Proof.
  split; [|split].
  - apply (proj1 (getConfigFromEnv_first_missing parseInt10
                    (<["MARIADB_PASSWORD" := "secret"]> ∅))).
    left. reflexivity.
  - apply (proj1 (proj2 (getConfigFromEnv_first_missing parseInt10
                    (<["MARIADB_HOST" := "db.local"]>
                       (<["MARIADB_USER" := ""]> ∅)))) "db.local").
    + split; [reflexivity | discriminate].
    + right. reflexivity.
  - apply (proj2 (proj2 (getConfigFromEnv_first_missing parseInt10
                    env_no_password)) "db.local" "app").
    + split; [reflexivity | discriminate].
    + split; [reflexivity | discriminate].
    + left. reflexivity.
Defined.

Lemma createConnectionPool_options_witness :
  let cfg := pool_config pool0 in
  present env_ok "MARIADB_HOST" (PoolConfig.host cfg)
  ∧ present env_ok "MARIADB_USER" (PoolConfig.user cfg)
  ∧ present env_ok "MARIADB_PASSWORD" (PoolConfig.password cfg)
  ∧ PoolConfig.database cfg = env_ok !! "MARIADB_DATABASE"
  ∧ (missing env_ok "MARIADB_PORT" → PoolConfig.port cfg = Number 3306)
  ∧ (∀ s, present env_ok "MARIADB_PORT" s →
       PoolConfig.port cfg = parseInt10 s)
  ∧ PoolConfig.connectionLimit cfg = 2
  ∧ PoolConfig.connectTimeout cfg = 10000
  ∧ (PoolConfig.bigIntAsNumber cfg = true
     ↔ env_ok !! "MARIADB_BIG_INT_AS_NUMBER" = Some "true")
  ∧ (PoolConfig.decimalAsNumber cfg = true
     ↔ env_ok !! "MARIADB_DECIMAL_AS_NUMBER" = Some "true")
  ∧ (PoolConfig.checkNumberRange cfg = true
     ↔ env_ok !! "MARIADB_CHECK_NUMBER_RANGE" = Some "true").
Proof.
  apply (createConnectionPool_options parseInt10 (answers VNull) env_ok
           initial
           (snd (run_createConnectionPool (answers VNull) env_ok initial))
           pool0).
  - reflexivity.
  - vm_compute. reflexivity.
Defined.

Example ex_endConnection_twice :
  new_calls after_select
    (snd (endConnection (Some (Error "pool is closed"))
            (snd (endConnection None after_select))))
  = [EndPool pool0; EndPool pool0].
Proof. vm_compute. reflexivity. Qed.

Example ex_statement_once :
  filter (λ call, is_statement call = true)
    (new_calls initial
       (snd (run_executeQuery query_fails env_ok "SELECT 1" [] (Some "shop")
               initial)))
  = [statement lease1 "SELECT 1"].
Proof. vm_compute. reflexivity. Qed.

(** A database name is not escaped. *)
Example ex_switch_verbatim :
  filter (λ call, is_switch call = true)
    (new_calls after_select
       (snd (run_executeQuery (answers VNull) env_ok "DROP TABLE t" []
               (Some "a`; DROP TABLE t; --") after_select)))
  = [Query lease2 (QSql "USE `a`; DROP TABLE t; --`") None].
Proof. vm_compute. reflexivity. Qed.

(** * The life cycle in full *)

Section LifeCycle.

Variable parseInt : string → number.
Variable isAlloowedQuery : Env → string → bool.

Set Default Proof Using "Type".

Ltac run_guarded :=
  unfold executeQuery_body, executeQuery_finally, try_finally, bind, ret,
    raise, lift, get_pool, get_connection, set_pool, set_connection,
    drv_getConnection, drv_query, drv_release, on_driver, record_call;
  simpl.

(** The guarded part: the calls it makes, the lease variable and the
    outstanding leases it leaves. *)
Lemma try_finally_run o env sql params database p m :
  let m' := snd (try_finally
                   (executeQuery_body isAlloowedQuery o env sql params
                      database p)
                   executeQuery_finally m) in
  let c := lease_used p m in
  pool m' = pool m
  ∧ ended (driver m') = ended (driver m)
  ∧ connection m' = None
  ∧ calls (driver m')
    = (calls (driver m)
       ++ if lease_obtained o m
          then match connection m with
               | Some _ => []
               | None => [GetConnection p]
               end
               ++ use_calls c database
               ++ (if reaches_validator o database m
                      && isAlloowedQuery env sql
                   then [Query c (QOpts (QueryOptions.Build sql true true
                                           DEFAULT_TIMEOUT)) (Some params)]
                   else [])
               ++ [Release c]
          else [GetConnection p])%list
  ∧ leased (driver m')
    = (if lease_obtained o m
       then filter (λ c', conn_id c' ≠ conn_id c) (leased (driver m))
       else leased (driver m)).
Proof.
  destruct (try_finally_calls isAlloowedQuery o env sql params database p m)
    as (Hcalls & Hpool & Hended & _).
  pose proof (try_finally_clears isAlloowedQuery o env sql params database p m)
    as Hclear.
  simpl. split; [done|]. split; [done|]. split; [done|]. split.
  - rewrite Hcalls. f_equal. unfold guarded_calls, lease_obtained.
    by destruct (connection m), (getConnection_rejects o).
  - clear Hcalls Hpool Hended Hclear.
    destruct m as [pl cn [nid ls en cs]].
    unfold lease_obtained, lease_used. simpl. run_guarded.
    destruct cn as [c|]; simpl;
      [|destruct (getConnection_rejects o); simpl; [done|]];
      repeat (case_match; simpl); simplify_eq/=; try done;
      rewrite filter_cons; simpl; by rewrite decide_False by (by intros ?).
Qed.

(** An invocation that gets past pool set-up, in full. *)
Lemma executeQuery_ready_run o env sql params database m :
  pool_ready parseInt o env m = true →
  let run := executeQuery parseInt isAlloowedQuery o env sql params
               database m in
  ∃ p,
    pool (snd run) = Some p
    ∧ (∀ p', pool m = Some p' → p' = p)
    ∧ ended (driver (snd run)) = ended (driver m)
    ∧ connection (snd run) = None
    ∧ fst run
      = match connection m, getConnection_rejects o with
        | None, Some e => throw e
        | _, _ =>
            match use_rejects o with
            | Some e =>
                if truthy database then throw e
                else if isAlloowedQuery env sql
                     then query_result o env params
                     else throw (Error "Query not allowed")
            | None =>
                if isAlloowedQuery env sql then query_result o env params
                else throw (Error "Query not allowed")
            end
        end
    ∧ calls (driver (snd run))
      = (calls (driver m)
         ++ match pool m with
            | Some _ => []
            | None => [CreatePool (pool_config p)]
            end
         ++ if lease_obtained o m
            then match connection m with
                 | Some _ => []
                 | None => [GetConnection p]
                 end
                 ++ use_calls (invocation_lease m p) database
                 ++ (if reaches_validator o database m
                        && isAlloowedQuery env sql
                     then [Query (invocation_lease m p)
                             (QOpts (QueryOptions.Build sql true true
                                       DEFAULT_TIMEOUT)) (Some params)]
                     else [])
                 ++ [Release (invocation_lease m p)]
            else [GetConnection p])%list
    ∧ leased (driver (snd run))
      = (if lease_obtained o m
         then filter (λ c', conn_id c' ≠ conn_id (invocation_lease m p))
                (leased (driver m))
         else leased (driver m)).
Proof.
  intros Hready. unfold pool_ready in Hready. cbv zeta.
  rewrite executeQuery_unfold.
  destruct (pool m) as [p|] eqn:Hpool.
  - exists p.
    destruct (try_finally_run o env sql params database p m)
      as (Hp & Hen & Hcn & Hcalls & Hleased).
    rewrite (try_finally_result isAlloowedQuery).
    unfold invocation_lease. rewrite Hpool.
    repeat split; try done; congruence.
  - destruct m as [pl cn [nid ls en cs]]. simpl in Hpool. subst pl.
    simpl in Hready.
    unfold createConnectionPool, bind, lift, get_pool, drv_createPool,
      on_driver, set_pool, ret, record_call.
    destruct (getConfigFromEnv parseInt env) as [e|cfg]; [done|].
    destruct (createPool_throws o) as [e|]; [done|]. simpl.
    match goal with
    | |- context [try_finally ?b ?f ?m1] =>
        destruct (try_finally_run o env sql params database
                    {| pool_id := nid;
                       pool_config := PoolConfig.Build
                         (MariaDBConfig.host cfg) (MariaDBConfig.port cfg)
                         (MariaDBConfig.user cfg) (MariaDBConfig.password cfg)
                         (MariaDBConfig.database cfg) 2 DEFAULT_TIMEOUT
                         (MariaDBConfig.big_int_as_number cfg)
                         (MariaDBConfig.decimal_as_number cfg)
                         (MariaDBConfig.check_number_range cfg) |} m1)
          as (Hp & Hen & Hcn & Hcalls & Hleased)
    end.
    eexists. split; [exact Hp|]. split; [done|]. split; [exact Hen|].
    split; [exact Hcn|]. split.
    { by rewrite (try_finally_result isAlloowedQuery). }
    split.
    + simpl in Hcalls. rewrite <- (assoc_L (++)) in Hcalls. exact Hcalls.
    + exact Hleased.
Qed.

(** An invocation stopped by pool set-up leaves lease and leases alone. *)
Lemma executeQuery_not_ready_state o env sql params database m :
  pool_ready parseInt o env m = false →
  connection (snd (executeQuery parseInt isAlloowedQuery o env sql params
                     database m)) = connection m
  ∧ leased (driver (snd (executeQuery parseInt isAlloowedQuery o env sql
                           params database m))) = leased (driver m).
Proof.
  unfold pool_ready. rewrite executeQuery_unfold.
  destruct m as [pl cn [nid ls en cs]]. simpl.
  destruct pl as [p|]; [done|].
  unfold createConnectionPool, bind, lift, get_pool, drv_createPool,
    on_driver, set_pool, ret, record_call.
  destruct (getConfigFromEnv parseInt env) as [e|cfg]; simpl; [done|].
  by destruct (createPool_throws o) as [e|].
Qed.

(** C1, as the code has it.  When the validator rejects the statement, the
    call fails and the statement is never sent to the database.  The
    validator is consulted inside the guarded part, after pool set-up,
    after the lease has been checked out (or found held) and after any
    database-switch statement has been sent.  So, on a first call as on a
    later one: if pool set-up fails the call ends with its error, having
    at most asked the driver to construct a pool; otherwise the calls made
    are the construction (when no pool was installed), the checkout (when
    no lease was held), the switch (when a database was given) and the
    release of that very lease, in this order; the error is the rejection
    of the checkout or of the switch if one of them failed, and
    ["Query not allowed"] otherwise; no lease is held on return and the
    lease used is no longer outstanding. *)
Theorem executeQuery_rejected (o : Outcomes) (env : Env) (sql : string)
    (params : list value) (database : option string) (m : Machine) :
  isAlloowedQuery env sql = false →
  let run := executeQuery parseInt isAlloowedQuery o env sql params
               database m in
  (∃ e, fst run = throw e)
  ∧ Forall (λ call, is_statement call = false) (new_calls m (snd run))
  ∧ (pool_ready parseInt o env m = false →
     pool m = None
     ∧ Forall (λ call, is_CreatePool call = true) (new_calls m (snd run))
     ∧ ∃ e, fst run = throw e
         ∧ (getConfigFromEnv parseInt env = throw e
            ∨ createPool_throws o = Some e))
  ∧ (pool_ready parseInt o env m = true →
     ∃ p,
       pool (snd run) = Some p
       ∧ (∀ p', pool m = Some p' → p' = p)
       ∧ fst run
         = match connection m, getConnection_rejects o with
           | None, Some e => throw e
           | _, _ =>
               match use_rejects o with
               | Some e =>
                   if truthy database then throw e
                   else throw (Error "Query not allowed")
               | None => throw (Error "Query not allowed")
               end
           end
       ∧ new_calls m (snd run)
         = (match pool m with
            | Some _ => []
            | None => [CreatePool (pool_config p)]
            end
            ++ if lease_obtained o m
               then match connection m with
                    | Some _ => []
                    | None => [GetConnection p]
                    end
                    ++ use_calls (invocation_lease m p) database
                    ++ [Release (invocation_lease m p)]
               else [GetConnection p])%list
       ∧ connection (snd run) = None
       ∧ leased (driver (snd run))
         = (if lease_obtained o m
            then filter (λ c', conn_id c' ≠ conn_id (invocation_lease m p))
                   (leased (driver m))
            else leased (driver m))).
Proof.
  intros Hrej run. subst run.
  destruct (pool_ready parseInt o env m) eqn:Hready.
  - destruct (executeQuery_ready_run o env sql params database m Hready)
      as (p & Hp & Hsame & _ & Hcn & Hres & Hcalls & Hleased).
    rewrite Hrej, andb_false_r in *. cbn [app] in Hcalls.
    rewrite (new_calls_app _ _ _ Hcalls).
    split.
    { rewrite Hres.
      destruct (connection m), (getConnection_rejects o), (use_rejects o),
        (truthy database); eauto. }
    split.
    { unfold use_calls.
      destruct (pool m), (lease_obtained o m), (connection m),
        database as [[|a db]|]; simpl; by repeat constructor. }
    split; [done|]. intros _. exists p. by repeat split.
  - destruct (executeQuery_not_ready parseInt isAlloowedQuery o env sql params
                database m Hready)
      as (e & pre & Hres & Hpool & Horigin & Hcalls & Hkinds & _).
    rewrite (new_calls_app _ _ _ Hcalls).
    split; [eauto|]. split.
    { eapply Forall_impl; [exact Hkinds|]. by intros []. }
    split; [|done]. intros _. split; [done|]. split; [done|]. eauto.
Qed.


(** X11.  When pool set-up succeeds and a lease is at hand, the invocation
    releases exactly once and as its last call, and what it releases is
    the lease it worked with: the one held at the start, or else the one
    its own checkout from the installed pool returned.  Every statement
    before goes over that lease, no lease is held on return and that lease
    is no longer outstanding.  Otherwise the invocation neither releases
    nor sends anything, and the outstanding leases are as before. *)
Theorem executeQuery_release_last (o : Outcomes) (env : Env) (sql : string)
    (params : list value) (database : option string) (m : Machine) :
  let run := executeQuery parseInt isAlloowedQuery o env sql params
               database m in
  let made := new_calls m (snd run) in
  if pool_ready parseInt o env m && lease_obtained o m
  then ∃ p before,
         pool (snd run) = Some p
         ∧ (∀ p', pool m = Some p' → p' = p)
         ∧ made = (before ++ [Release (invocation_lease m p)])%list
         ∧ Forall (λ call, is_Release call = false) before
         ∧ Forall (λ call, ∀ c' q ps, call = Query c' q ps →
                             c' = invocation_lease m p) before
         ∧ (connection m = None → In (GetConnection p) before)
         ∧ connection (snd run) = None
         ∧ leased (driver (snd run))
           = filter (λ c', conn_id c' ≠ conn_id (invocation_lease m p))
               (leased (driver m))
  else Forall (λ call, is_Release call = false ∧ is_Query call = false) made
       ∧ leased (driver (snd run)) = leased (driver m).
Proof.
  intros run made. subst run made.
  destruct (pool_ready parseInt o env m) eqn:Hready; simpl.
  - destruct (executeQuery_ready_run o env sql params database m Hready)
      as (p & Hp & Hsame & _ & Hcn & _ & Hcalls & Hleased).
    rewrite (new_calls_app _ _ _ Hcalls).
    destruct (lease_obtained o m).
    + exists p. eexists. split; [done|]. split; [done|].
      split; [rewrite !(assoc_L (++)); reflexivity|].
      split; [|split; [|split; [|by split]]].
      * unfold use_calls.
        destruct (pool m), (connection m), database as [[|a db]|],
          (reaches_validator o _ m && isAlloowedQuery env sql); simpl;
          by repeat constructor.
      * unfold use_calls.
        destruct (pool m), (connection m), database as [[|a db]|],
          (reaches_validator o _ m && isAlloowedQuery env sql); simpl;
          repeat constructor; congruence.
      * intros ->. rewrite !in_app_iff. simpl. tauto.
    + split; [|done]. destruct (pool m); simpl; by repeat constructor.
  - destruct (executeQuery_not_ready parseInt isAlloowedQuery o env sql params
                database m Hready)
      as (e & pre & _ & _ & _ & Hcalls & Hkinds & _).
    destruct (executeQuery_not_ready_state o env sql params database m Hready)
      as [_ Hleased].
    rewrite (new_calls_app _ _ _ Hcalls). split; [|done].
    eapply Forall_impl; [exact Hkinds|]. by intros [].
Qed.

(** C6, on the reply the code asks for.  [executeQuery] sends the statement
    with [metaAsArray: true]; the connector then resolves to the pair
    [[rows, meta]].  On that reply the row limit looks at an array of two
    elements and never applies: a successful call returns the pair with
    every row of the result set normalised, however many there are, and
    [fields] is the empty array, the pair having no [meta] property. *)
Theorem executeQuery_limit_misses_pair (o : Outcomes) (env : Env)
    (sql : string) (params : list value) (database : option string)
    (m : Machine) (elems : list value) (meta : value) :
  query_outcome o
  = ok (connector_reply (QueryOptions.Build sql true true DEFAULT_TIMEOUT)
          (VArray elems) meta) →
  let run := executeQuery parseInt isAlloowedQuery o env sql params
               database m in
  let expected :=
    {| rows := VArray [VArray (map coerceRow elems); coerceRow meta];
       fields := VArray [] |} in
  (∀ res, fst run = ok res → res = expected)
  ∧ (pool_ready parseInt o env m = true →
     reaches_validator o database m = true →
     isAlloowedQuery env sql = true →
     env !! "MARIADB_CHECK_NUMBER_RANGE" ≠ Some "true"
       ∨ unsafe_row (VArray [VArray elems; meta]) = false →
     existsb has_bigint params = false →
     fst run = ok expected).
Proof.
  intros Hquery run expected. subst run expected.
  unfold connector_reply in Hquery. simpl in Hquery.
  assert (limitRows (VArray [VArray elems; meta])
          = VArray [VArray elems; meta]) as Hlimit by done.
  split.
  - intros res Hres.
    destruct (executeQuery_ok_inv parseInt isAlloowedQuery _ _ _ _ _ _ _ Hres)
      as (result & Hresult & Hrows & Hfields).
    rewrite Hquery in Hresult. injection Hresult as <-.
    cbn [dr_value dr_meta] in Hrows, Hfields. rewrite Hlimit in Hrows.
    apply normalizeRow_returned in Hrows.
    destruct res as [r f]. simpl in *. by subst.
  - intros Hready Hreach Hallowed Hsafe Hparams.
    destruct (executeQuery_ready_run o env sql params database m Hready)
      as (p & _ & _ & _ & _ & -> & _).
    unfold reaches_validator in Hreach. unfold query_result.
    rewrite Hquery, Hallowed. unfold ok. cbn [rbind dr_value dr_meta].
    rewrite Hlimit, (normalizeRow_returns env _ Hsafe).
    unfold JSON_stringify_check. rewrite Hparams.
    unfold ok. cbn [rbind].
    by destruct (connection m), (getConnection_rejects o), (use_rejects o),
      (truthy database).
Qed.

End LifeCycle.

Lemma find_app_first {A} (f : A → bool) (l1 l2 : list A) :
  find f (l1 ++ l2)
  = match find f l1 with Some x => Some x | None => find f l2 end.
Proof.
  induction l1 as [|x l1 IH]; simpl; [done|]. by destruct (f x).
Qed.

Lemma first_unsafe_find (row : value) :
  first_unsafe row = find unsafe_bigint (bigint_fields row).
Proof.
  induction row as [| | | | | | | |elems IH|fields] using value_deep_ind;
    try done.
  - simpl. induction IH as [|x xs Hx _ IHxs]; simpl; [done|].
    by rewrite find_app_first, Hx, IHxs.
  - simpl. induction fields as [|[k v] rest IH]; simpl; [done|].
    rewrite find_app_first, IH. by destruct v.
Qed.

Lemma unsafe_bigint_spec (z : Z) :
  unsafe_bigint z = true ↔ Z.abs z > MAX_SAFE.
Proof.
  unfold unsafe_bigint. rewrite orb_true_iff, Z.gtb_lt, Z.ltb_lt. lia.
Qed.

Lemma bigint_fields_coerced (row : value) : bigint_fields (coerceRow row) = [].
Proof.
  induction row as [| | | | | | | |elems IH|fields] using value_deep_ind;
    try done.
  - simpl. induction IH as [|x xs Hx _ IHxs]; simpl; [done|].
    by rewrite Hx, IHxs.
  - simpl. induction fields as [|[k v] rest IH]; simpl; [done|].
    rewrite IH. by destruct v.
Qed.

(** C5, as the code has it.  The bigints that normalisation checks and
    converts are those it hands to [convertScalar]: the bigint field values
    of the records reached through arrays alone.  With the range check
    enabled, if one of them has a magnitude above
    [Number.MAX_SAFE_INTEGER], normalisation throws the error naming the
    first such value in the order of the walk; if none has, and in every
    case with the check disabled, normalisation returns, each of them
    coerced with [Number], so that none is left.  On a single bigint
    [convertScalar] throws or coerces by the same rule. *)
Theorem normalizeRow_bigint_range (env : Env) (row : value) :
  (env !! "MARIADB_CHECK_NUMBER_RANGE" = Some "true" →
   (∃ z, In z (bigint_fields row) ∧ Z.abs z > MAX_SAFE) →
   ∃ z, In z (bigint_fields row) ∧ Z.abs z > MAX_SAFE
     ∧ first_unsafe row = Some z
     ∧ normalizeRow env row
       = throw (Error ("BIGINT out of safe JS range: " +:+ bigint_toString z)))
  ∧ (env !! "MARIADB_CHECK_NUMBER_RANGE" = Some "true" →
     (∀ z, In z (bigint_fields row) → Z.abs z <= MAX_SAFE) →
     normalizeRow env row = ok (coerceRow row))
  ∧ (env !! "MARIADB_CHECK_NUMBER_RANGE" ≠ Some "true" →
     normalizeRow env row = ok (coerceRow row))
  ∧ bigint_fields (coerceRow row) = []
  ∧ (∀ z,
       (env !! "MARIADB_CHECK_NUMBER_RANGE" = Some "true" →
        Z.abs z > MAX_SAFE →
        convertScalar env (VBigInt z)
        = throw (Error ("BIGINT out of safe JS range: "
                        +:+ bigint_toString z)))
       ∧ (env !! "MARIADB_CHECK_NUMBER_RANGE" = Some "true" →
          Z.abs z <= MAX_SAFE →
          convertScalar env (VBigInt z) = ok (VNumber (Number z)))
       ∧ (env !! "MARIADB_CHECK_NUMBER_RANGE" ≠ Some "true" →
          convertScalar env (VBigInt z) = ok (VNumber (Number z)))).
Proof.
  pose proof (normalizeRow_closed_form env row) as Hform.
  rewrite first_unsafe_find in Hform.
  split; [|split; [|split; [|split]]].
  - intros Hon%env_is_true_spec (z & Hin & Hbig). rewrite Hon in Hform.
    destruct (find unsafe_bigint (bigint_fields row)) as [z'|] eqn:Hfind.
    + destruct (find_some _ _ Hfind) as [Hin' Hbig'%unsafe_bigint_spec].
      exists z'. by rewrite first_unsafe_find.
    + exfalso. apply (find_none _ _ Hfind) in Hin.
      apply unsafe_bigint_spec in Hbig. congruence.
  - intros Hon%env_is_true_spec Hall. rewrite Hon in Hform.
    destruct (find unsafe_bigint (bigint_fields row)) as [z'|] eqn:Hfind;
      [|done].
    apply find_some in Hfind as [Hin' Hbig'%unsafe_bigint_spec].
    specialize (Hall z' Hin'). lia.
  - intros Hoff%env_is_true_false. by rewrite Hoff in Hform.
  - apply bigint_fields_coerced.
  - intros z. apply convertScalar_bigint_range.
Qed.

(** ** The life cycle on concrete inputs *)

Lemma executeQuery_rejected_witness :
  let run := run_executeQuery (answers VNull) env_ok "DELETE FROM t" []
               (Some "shop") initial in
  fst run = throw (Error "Query not allowed")
  ∧ new_calls initial (snd run)
    = [CreatePool pool_config0; GetConnection pool0;
       Query lease1 (QSql "USE `shop`") None; Release lease1]
  ∧ connection (snd run) = None
  ∧ leased (driver (snd run)) = [].
Proof.
  destruct (executeQuery_rejected parseInt10 isAllowed (answers VNull) env_ok
              "DELETE FROM t" [] (Some "shop") initial)
    as (_ & _ & _ & Hready); [vm_compute; reflexivity|].
  destruct (Hready eq_refl) as (p & Hp & _ & Hres & Hcalls & Hcn & Hleased).
  assert (p = pool0) as ->
    by (vm_compute in Hp; injection Hp as <-; reflexivity).
  cbv zeta. split; [exact Hres|]. split; [exact Hcalls|].
  split; [exact Hcn | exact Hleased].
Defined.


Example ex_release_of_own_checkout :
  let run := run_executeQuery query_fails env_ok "SELECT 1" [] None
               after_select in
  new_calls after_select (snd run)
  = [GetConnection pool0; statement lease2 "SELECT 1"; Release lease2]
  ∧ invocation_lease after_select pool0 = lease2
  ∧ leased (driver (snd run)) = [].
Proof. vm_compute. by repeat split. Qed.

(** C5, as stated, fails: a bigint far outside the safe range that is an
    element of a row given as an array is met by normalisation and is
    neither rejected with the range check on nor coerced with it off. *)
Lemma normalizeRow_unchecked_bigint :
  Z.abs 1152921504606846976 > MAX_SAFE
  ∧ normalizeRow {["MARIADB_CHECK_NUMBER_RANGE" := "true"]}
      (VArray [VArray [VBigInt 1152921504606846976]])
    = ok (VArray [VArray [VBigInt 1152921504606846976]])
  ∧ normalizeRow ∅ (VArray [VArray [VBigInt 1152921504606846976]])
    = ok (VArray [VArray [VBigInt 1152921504606846976]]).
Proof. repeat split. Qed.

Lemma normalizeRow_bigint_range_witness :
  ∃ z,
    In z (bigint_fields
            (VArray [VObject [("a", VBigInt 1);
                              ("b", VBigInt (-9007199254740992))];
                     VObject [("a", VBigInt 9007199254740992)]]))
    ∧ Z.abs z > MAX_SAFE
    ∧ first_unsafe
        (VArray [VObject [("a", VBigInt 1);
                          ("b", VBigInt (-9007199254740992))];
                 VObject [("a", VBigInt 9007199254740992)]]) = Some z
    ∧ normalizeRow {["MARIADB_CHECK_NUMBER_RANGE" := "true"]}
        (VArray [VObject [("a", VBigInt 1);
                          ("b", VBigInt (-9007199254740992))];
                 VObject [("a", VBigInt 9007199254740992)]])
      = throw (Error ("BIGINT out of safe JS range: " +:+ bigint_toString z)).
Proof.
  apply (proj1 (normalizeRow_bigint_range
                  {["MARIADB_CHECK_NUMBER_RANGE" := "true"]}
                  (VArray [VObject [("a", VBigInt 1);
                                    ("b", VBigInt (-9007199254740992))];
                           VObject [("a", VBigInt 9007199254740992)]]))).
  - reflexivity.
  - exists 9007199254740992. split; [simpl; tauto | reflexivity].
Defined.

Lemma executeQuery_limit_misses_pair_witness :
  fst (run_executeQuery
         (with_rows (answers VNull)
            (VArray [VArray (numbered_rows 1500); VArray []]) VUndefined)
         env_ok "SELECT id FROM t" [] None initial)
  = ok {| rows := VArray [VArray (map coerceRow (numbered_rows 1500));
                          VArray []];
          fields := VArray [] |}
  ∧ length (map coerceRow (numbered_rows 1500)) = 1500%nat.
Proof.
  pose proof (executeQuery_limit_misses_pair parseInt10 isAllowed
                (with_rows (answers VNull)
                   (VArray [VArray (numbered_rows 1500); VArray []])
                   VUndefined)
                env_ok "SELECT id FROM t" [] None initial
                (numbered_rows 1500) (VArray []) eq_refl) as H.
  cbv zeta in H. destruct H as [_ Hok].
  split; [|vm_compute; reflexivity].
  apply Hok.
  - reflexivity.
  - reflexivity.
  - reflexivity.
  - left. vm_compute. discriminate.
  - reflexivity.
Defined.
